(** * psidata.abr: cached, artifact-rejecting access to ABR recordings

    A shallow embedding of [psidata/abr.py]: the persistent call cache
    ([cache]), the recording ([ABRFile]) with its rejection filter
    ([_apply_reject]) and the superset layer ([ABRSupersetFile]).

    Python exceptions are the [Raise] outcome of a small error monad, pandas
    frames are lists of rows, float64 samples are the kernel's binary64
    floats, and dictionaries are finite maps. *)

From Stdlib Require Import ZArith Ascii String List Floats.
From stdpp Require Import base option list gmap strings pretty.

Open Scope string_scope.

(** ** Python outcomes *)

Module Py.

(** The exceptions the module raises itself or lets through. *)
Inductive exn :=
  | TypeError
  | ValueError (msg : string)
  | KeyError (key : string)
  | NotImplementedError
  | OSError (msg : string).

Inductive outcome (A : Type) :=
  | Return (a : A)
  | Raise (e : exn).
Arguments Return {A} a.
Arguments Raise {A} e.

#[export] Instance outcome_bind : MBind outcome := fun A B k m =>
  match m with
  | Return a => k a
  | Raise e => Raise e
  end.

Definition returns {A} (m : outcome A) : bool :=
  match m with Return _ => true | Raise _ => false end.

(** [[g(x) for x in xs]]: left to right, the first exception ends the
    comprehension. *)
Fixpoint comprehension {A B} (g : A → outcome B) (xs : list A) : outcome (list B) :=
  match xs with
  | [] => Return []
  | x :: xs' => y ← g x; ys ← comprehension g xs'; Return (y :: ys)
  end.

End Py.
Export Py.

(** ** pandas frames *)

Module Frame.

(** An index label: trial numbers, stimulus parameters, names. *)
Inductive label :=
  | LInt (z : Z)
  | LFloat (x : float)
  | LStr (s : string).

(** One row of an epoch table: its index key, outermost level first, and its
    samples in column order. *)
Record row := Row { index : list label; samples : list float }.

(** An epoch table: the names of its index levels (None for a nameless one)
    and its rows in order. *)
Record table := Table { index_names : list (option string); rows : list row }.

Definition nrows (t : table) : nat := length (rows t).

(** A row with a missing sample: pandas reads NaN as missing. *)
Definition has_na (r : row) : bool := existsb PrimFloat.is_nan (samples r).

(** [DataFrame.dropna()]: axis 0, how "any". *)
Definition dropna (t : table) : table :=
  Table (index_names t) (List.filter (fun r => negb (has_na r)) (rows t)).

(** [(df < x).all(axis=1)] for a number [x]: the mask of the rows whose every
    sample is below [x] (IEEE comparison: false on NaN). *)
Definition all_lt (x : float) (r : row) : bool :=
  forallb (fun v => PrimFloat.ltb v x) (samples r).

(** [df.loc[m]] for the boolean mask computed row by row by [m]. *)
Definition loc_mask (m : row → bool) (t : table) : table :=
  Table (index_names t) (List.filter m (rows t)).

(** A cell of the trial metadata: a number or a string. *)
Inductive cell :=
  | CNum (x : float)
  | CStr (s : string).

End Frame.
Export Frame.

(** A metadata row (a pandas Series read by column name). *)
Abbreviation Series := (gmap string cell).

(** ** The recording and its rejection filter *)

Module ABR.

(** A Python value handed to the rejection filter as threshold or mode.
    [PNpInf] is the object [numpy.inf] itself; [PNum infinity] is any other
    float object holding the same value (a float read from a frame, the result
    of [float('inf')], [math.inf]): Python's [is] tells the two apart. *)
Inductive pyval :=
  | PNone
  | PNpInf
  | PNum (x : float)
  | PStr (s : string).

(** A value read from a frame is a fresh object: never [numpy.inf] itself. *)
Definition of_cell (c : cell) : pyval :=
  match c with
  | CNum x => PNum x
  | CStr s => PStr s
  end.

(** [v is None], [v is np.inf], [v == s] for a string literal [s]. *)
Definition is_None (v : pyval) : bool :=
  match v with PNone => true | _ => false end.

Definition is_np_inf (v : pyval) : bool :=
  match v with PNpInf => true | _ => false end.

(** [v == np.inf]: the value is plus infinity, whichever object holds it. *)
Definition is_inf (v : pyval) : bool :=
  match v with
  | PNpInf => true
  | PNum x => (x =? infinity)%float
  | PNone | PStr _ => false
  end.

Definition eq_str (v : pyval) (s : string) : bool :=
  match v with PStr s' => bool_decide (s' = s) | _ => false end.

(** The number a value compares as under [<]; comparing a float frame with a
    string or with None is a TypeError. *)
Definition as_number (v : pyval) : outcome float :=
  match v with
  | PNum x => Return x
  | PNpInf => Return infinity
  | PNone | PStr _ => Raise TypeError
  end.

(** The state of an [ABRFile] that the module reads. [carray_names],
    [ctable_names] and [base_path] come from the base class [BcolzRecording];
    [erp_metadata] is the value of the memoized property of that name (the
    frame with its columns renamed, rows in order, index 0, 1, ...), or the
    exception its loading raises. *)
Record ABRFile := {
  base_path : string;
  carray_names : list string;
  ctable_names : list string;
  erp_metadata : outcome (list Series)
}.

(** [frame.loc[0]] on the default index: the first row. *)
Definition loc0 (frame : list Series) : outcome Series :=
  match frame with
  | r :: _ => Return r
  | [] => Raise (KeyError "0")
  end.

(** [row[key]]. *)
Definition getitem (r : Series) (key : string) : outcome cell :=
  match r !! key with
  | Some c => Return c
  | None => Raise (KeyError key)
  end.

(** [row.get(key, default)]. *)
Definition get (r : Series) (key : string) (default : cell) : cell :=
  match r !! key with
  | Some c => c
  | None => default
  end.

(** The threshold and mode in force: the arguments, unless the threshold is
    None, in which case both come from the first metadata row. *)
Definition resolve (self : ABRFile) (reject_threshold reject_mode : pyval)
  : outcome (pyval * pyval) :=
  if is_None reject_threshold then
    frame ← erp_metadata self;
    r ← loc0 frame;
    t ← getitem r "reject_threshold";
    Return (of_cell t, of_cell (get r "reject_mode" (CStr "absolute")))
  else Return (reject_threshold, reject_mode).

Definition _apply_reject (self : ABRFile) (result : table)
    (reject_threshold reject_mode : pyval) : outcome table :=
  let result := dropna result in
  '(reject_threshold, reject_mode) ← resolve self reject_threshold reject_mode;
  if negb (is_np_inf reject_threshold) then
    if eq_str reject_mode "absolute" then
      x ← as_number reject_threshold;
      Return (loc_mask (all_lt x) result)
    else if eq_str reject_mode "amplitude" then
      Raise NotImplementedError
    else Return result
  else Return result.

End ABR.
Export ABR.

(** ** The persistent call cache *)

Module Cache.

(** An argument of an extraction call. The cache only renders its arguments,
    so a float is carried by its [repr] (what [str] gives for it and what
    identifies it: 8.5e-3 is [VFloat "0.0085"]). *)
Inductive value :=
  | VNone
  | VBool (b : bool)
  | VInt (n : Z)
  | VFloat (repr : string)
  | VStr (s : string).

#[export] Instance value_eq_dec : EqDecision value.
Proof. solve_decision. Defined.

(** [str(v)], which is what an f-string puts for [{v}]. *)
Definition str (v : value) : string :=
  match v with
  | VNone => "None"
  | VBool true => "True"
  | VBool false => "False"
  | VInt n => pretty n
  | VFloat repr => repr
  | VStr s => s
  end.

(** A parameter of a signature, all of the positional-or-keyword kind. *)
Record parameter := Param { name : string; default : option value }.

(** The parameters after [self], which the wrapper always binds
    positionally. *)
Abbreviation signature := (list parameter).

(** [Signature.bind], first phase: positional arguments go to the leading
    parameters; one that is also given by keyword has multiple values. *)
Fixpoint bind_positional (parameters : signature) (args : list value)
    (kwargs arguments : gmap string value)
  : outcome (gmap string value * signature) :=
  match args, parameters with
  | [], _ => Return (arguments, parameters)
  | _ :: _, [] => Raise TypeError
  | arg_val :: args', param :: parameters' =>
      if bool_decide (is_Some (kwargs !! name param)) then Raise TypeError
      else bind_positional parameters' args' kwargs
             (<[name param := arg_val]> arguments)
  end.

(** Second phase: every remaining parameter takes its keyword argument, which
    is popped, or is left to its default; one with neither is missing. What is
    left of [kwargs] comes back. *)
Fixpoint bind_keywords (parameters : signature)
    (kwargs arguments : gmap string value)
  : outcome (gmap string value * gmap string value) :=
  match parameters with
  | [] => Return (arguments, kwargs)
  | param :: parameters' =>
      match kwargs !! name param with
      | Some arg_val =>
          bind_keywords parameters' (delete (name param) kwargs)
            (<[name param := arg_val]> arguments)
      | None =>
          match default param with
          | Some _ => bind_keywords parameters' kwargs arguments
          | None => Raise TypeError
          end
      end
  end.

(** [s.bind(self, *args, **kwargs)]: a keyword that names no parameter is
    unexpected. *)
Definition bind (s : signature) (args : list value) (kwargs : gmap string value)
  : outcome (gmap string value) :=
  '(arguments, parameters) ← bind_positional s args kwargs ∅;
  '(arguments, kwargs) ← bind_keywords parameters kwargs arguments;
  if bool_decide (kwargs = ∅) then Return arguments else Raise TypeError.

(** [bound_args.apply_defaults()]: the arguments in the order of the
    signature, an omitted one with its default. *)
Fixpoint apply_defaults (s : signature) (arguments : gmap string value)
  : list (string * value) :=
  match s with
  | [] => []
  | param :: s' =>
      match arguments !! name param, default param with
      | Some val, _ | None, Some val =>
          (name param, val) :: apply_defaults s' arguments
      | None, None => apply_defaults s' arguments
      end
  end.

(** The effective (post-default) argument set of a call. *)
Definition effective (s : signature) (args : list value)
    (kwargs : gmap string value) : outcome (list (string * value)) :=
  arguments ← bind s args kwargs; Return (apply_defaults s arguments).

(** [', '.join(f'{k}={v}' for k, v in iterable if k != 'self')]. *)
Definition file_params (items : list (string * value)) : string :=
  String.concat ", " (map (fun '(k, v) => k +:+ "=" +:+ str v) items).

Definition file_name (name : string) (items : list (string * value)) : string :=
  name +:+ " " +:+ file_params items +:+ ".pkl".

(** The four cached extraction operations of [ABRFile] and their signatures. *)
Inductive operation :=
  | get_epochs
  | get_random_segments
  | get_epochs_filtered
  | get_random_segments_filtered.

(** [f.__code__.co_name]. *)
Definition co_name (op : operation) : string :=
  match op with
  | get_epochs => "get_epochs"
  | get_random_segments => "get_random_segments"
  | get_epochs_filtered => "get_epochs_filtered"
  | get_random_segments_filtered => "get_random_segments_filtered"
  end.

Definition filter_parameters : signature :=
  [ Param "filter_lb" (Some (VInt 300));
    Param "filter_ub" (Some (VInt 3000));
    Param "filter_order" (Some (VInt 1));
    Param "offset" (Some (VFloat "-0.001"));
    Param "duration" (Some (VFloat "0.01"));
    Param "detrend" (Some (VStr "constant"));
    Param "pad_duration" (Some (VFloat "0.01"));
    Param "reject_threshold" (Some VNone);
    Param "reject_mode" (Some (VStr "absolute")) ].

(** [inspect.signature(f)] without [self]. *)
Definition signature_of (op : operation) : signature :=
  match op with
  | get_epochs =>
      [ Param "offset" (Some (VInt 0));
        Param "duration" (Some (VFloat "0.0085"));
        Param "detrend" (Some (VStr "constant"));
        Param "reject_threshold" (Some VNone);
        Param "reject_mode" (Some (VStr "absolute"));
        Param "columns" (Some (VStr "auto")) ]
  | get_random_segments =>
      [ Param "n" None;
        Param "offset" (Some (VInt 0));
        Param "duration" (Some (VFloat "0.0085"));
        Param "detrend" (Some (VStr "constant"));
        Param "reject_threshold" (Some VNone);
        Param "reject_mode" (Some (VStr "absolute")) ]
  | get_epochs_filtered =>
      filter_parameters ++ [ Param "columns" (Some (VStr "auto")) ]
  | get_random_segments_filtered =>
      Param "n" None :: filter_parameters
  end.

Section Wrapper.

(** [R] is what an extraction returns (a frame); [W] is whatever else the
    extraction reads and changes (the signal on disk, the random generator of
    the random-segment operations). *)
Context {R W : Type}.

(** What a call of the wrapper sees and changes: the [cache] directory of
    the recording ([None] while it does not exist; otherwise what
    [pd.read_pickle] gives for each file in it), the extraction's own world,
    and the number of extraction invocations so far. *)
Record state := State {
  cache_path : option (gmap string (outcome R));
  world : W;
  invocations : nat
}.

(** The files of the cache directory once [mkdir(parents=True,
    exist_ok=True)] has run. *)
Definition entries (st : state) : gmap string (outcome R) :=
  match cache_path st with
  | Some d => d
  | None => ∅
  end.

(** The wrapped function on its bound arguments: Python binds
    [f(self, *args, **kwargs)] as [s.bind] and [apply_defaults] do. *)
Variable f : list (string * value) → W → outcome R * W.

(** Whether the cache directory takes a new file of a given name (a name
    with a path separator points into a subdirectory that is not there, a
    long one exceeds the file system's limit): [to_pickle] raises when not. *)
Variable creatable : string → bool.

Variable op : operation.

(** [cache(f)] for [f] the operation [op]: the wrapper it returns. *)
Definition wrapper (args : list value) (refresh_cache : bool)
    (kwargs : gmap string value) (st : state) : outcome R * state :=
  match effective (signature_of op) args kwargs with
  | Raise e => (Raise e, st)
  | Return items =>
      let file_name := file_name (co_name op) items in
      let dir := entries st in
      match (if refresh_cache then None else dir !! file_name) with
      | Some entry => (entry, State (Some dir) (world st) (invocations st))
      | None =>
          let '(result, w) := f items (world st) in
          match result with
          | Raise e => (Raise e, State (Some dir) w (S (invocations st)))
          | Return r =>
              if creatable file_name then
                (Return r,
                 State (Some (<[file_name := Return r]> dir)) w
                   (S (invocations st)))
              else
                (Raise (OSError "to_pickle"),
                 State (Some dir) w (S (invocations st)))
          end
      end
  end.

End Wrapper.

End Cache.

(** ** Construction and the superset layer *)

Module Superset.

Import Cache.

(** [pd.concat(objs, keys=keys, names=names)] along the rows: each frame's
    rows get its key as a new outermost index level, and the frames are
    stacked in order. An empty list of frames is an error. The frames of one
    fan-out come from the same operation with the same arguments: they are
    taken to share their columns and the names of their index levels, which
    are those of the first frame. *)
Definition add_level (key : label) (r : row) : row :=
  Row (key :: index r) (samples r).

Definition concat (objs : list table) (keys : list label)
    (names : list (option string)) : outcome table :=
  match objs with
  | [] => Raise (ValueError "No objects to concatenate")
  | first :: _ =>
      Return
        (Table (names ++ index_names first)
           (mjoin (zip_with (fun key t => map (add_level key) (rows t))
                     keys objs)))
  end.

(** [range(n)] as index labels. *)
Definition range (n : nat) : list label :=
  map (fun i => LInt (Z.of_nat i)) (seq 0 n).

(** [os.path.join(a, b)] on POSIX paths. *)
Definition starts_with_sep (s : string) : bool :=
  match s with
  | String c _ => bool_decide (c = "/"%char)
  | EmptyString => false
  end.

Fixpoint ends_with_sep (s : string) : bool :=
  match s with
  | EmptyString => false
  | String c EmptyString => bool_decide (c = "/"%char)
  | String _ s' => ends_with_sep s'
  end.

Definition join (a b : string) : string :=
  if starts_with_sep b then b
  else if bool_decide (a = "") || ends_with_sep a then a +:+ b
  else a +:+ "/" +:+ b.

(** [[g(x) for x in xs]] for a [g] with side effects on a state. *)
Fixpoint comprehension_st {A B St} (g : A → St → outcome B * St) (xs : list A)
    (s : St) : outcome (list B) * St :=
  match xs with
  | [] => (Return [], s)
  | x :: xs' =>
      match g x s with
      | (Raise e, s1) => (Raise e, s1)
      | (Return y, s1) =>
          match comprehension_st g xs' s1 with
          | (Raise e, s2) => (Raise e, s2)
          | (Return ys, s2) => (Return (y :: ys), s2)
          end
      end
  end.

Record ABRSupersetFile := {
  _fh : list ABRFile;
  _base_folder : option string
}.

Section Construction.

(** [BcolzRecording.__init__], the base class constructor ([bcolz_tools] is
    not part of this development): it opens a storage location and fills the
    attributes of the recording, or raises. *)
Variable BcolzRecording_init : string → outcome ABRFile.

(** [ABRFile.__init__]. *)
Definition ABRFile_init (base_folder : string) : outcome ABRFile :=
  self ← BcolzRecording_init base_folder;
  if negb (bool_decide ("eeg" ∈ carray_names self)) then
    Raise (ValueError "Missing eeg data")
  else if negb (bool_decide ("erp_metadata" ∈ ctable_names self)) then
    Raise (ValueError "Missing erp metadata")
  else Return self.

(** [ABRSupersetFile.__init__]. *)
Definition ABRSupersetFile_init (base_folders : list string)
  : outcome ABRSupersetFile :=
  fh ← comprehension ABRFile_init base_folders;
  Return {| _fh := fh; _base_folder := None |}.

(** [os.listdir] (raises on a path that is no directory) and [os.path.isdir]. *)
Variable listdir : string → outcome (list string).
Variable isdir : string → bool.

(** [ABRSupersetFile.from_folder]. *)
Definition from_folder (base_folder : string) : outcome ABRSupersetFile :=
  names ← listdir base_folder;
  let folders := map (join base_folder) names in
  inst ← ABRSupersetFile_init (List.filter isdir folders);
  Return {| _fh := _fh inst; _base_folder := Some base_folder |}.

End Construction.

Section FanOut.

(** [St] is the state the constituents' operations work on (their signals and
    cache directories); [call fh fn_name args kwargs] is
    the call of the method named [fn_name] of [fh] with the given positional
    and keyword arguments. *)
Context {St : Type}.
Variable call :
  ABRFile → operation → list value → gmap string value → St → outcome table * St.

(** [ABRSupersetFile._merge_results]. *)
Definition _merge_results (self : ABRSupersetFile) (fn_name : operation)
    (args : list value) (kwargs : gmap string value) (s : St)
  : outcome table * St :=
  match comprehension_st (fun fh => call fh fn_name args kwargs) (_fh self) s with
  | (Raise e, s') => (Raise e, s')
  | (Return result_set, s') =>
      (concat result_set (range (length (_fh self))) [Some "file"], s')
  end.

(** The constituents' calls, one after the other on the running state, each
    returning a frame. *)
Inductive fan_out (fn_name : operation) (args : list value)
    (kwargs : gmap string value) : list ABRFile → St → list table → St → Prop :=
  | fan_out_nil s : fan_out fn_name args kwargs [] s [] s
  | fan_out_cons fh fhs t ts s s1 s2 :
      call fh fn_name args kwargs s = (Return t, s1) →
      fan_out fn_name args kwargs fhs s1 ts s2 →
      fan_out fn_name args kwargs (fh :: fhs) s (t :: ts) s2.

End FanOut.

End Superset.

(** ** Sample recordings, tables and calls *)

Module Examples.

Import Cache Superset.

(** Three epochs of two samples; the last one has a missing sample. *)
Definition epochs : table :=
  Table [Some "t0"]
    [ Row [LInt 0] [0.5%float; (-5)%float];
      Row [LInt 1] [0.5%float; 1.5%float];
      Row [LInt 2] [nan; 0%float] ].

(** A recording from before the rejection mode was stored: threshold 1. *)
Definition legacy : ABRFile := {|
  base_path := "a";
  carray_names := ["eeg"];
  ctable_names := ["erp_metadata"];
  erp_metadata := Return [ {[ "reject_threshold" := CNum 1%float ]} ]
|}.

(** A recording acquired in amplitude mode with threshold 1. *)
Definition amplitude_session : ABRFile := {|
  base_path := "d";
  carray_names := ["eeg"];
  ctable_names := ["erp_metadata"];
  erp_metadata :=
    Return [ <[ "reject_mode" := CStr "amplitude" ]>
               {[ "reject_threshold" := CNum 1%float ]} ]
|}.

(** A recording acquired with amplitude rejection switched off by an
    infinite threshold. *)
Definition unscreened : ABRFile := {|
  base_path := "b";
  carray_names := ["eeg"];
  ctable_names := ["erp_metadata"];
  erp_metadata :=
    Return [ <[ "reject_mode" := CStr "amplitude" ]>
               {[ "reject_threshold" := CNum infinity ]} ]
|}.

(** A recording with an infinite threshold and no stored mode. *)
Definition unscreened_legacy : ABRFile := {|
  base_path := "c";
  carray_names := ["eeg"];
  ctable_names := ["erp_metadata"];
  erp_metadata := Return [ {[ "reject_threshold" := CNum infinity ]} ]
|}.

(** Two epochs, the first with a sample that overflowed to infinity. *)
Definition clipped : table :=
  Table [Some "t0"]
    [ Row [LInt 0] [infinity; 0%float];
      Row [LInt 1] [0.5%float; 1.5%float] ].

(** Two epochs with their mean removed. *)
Definition detrended : table :=
  Table [Some "t0"]
    [ Row [LInt 0] [2.75%float; (-2.75)%float];
      Row [LInt 1] [(-0.5)%float; 0.5%float] ].

(** An extraction that, like the signal library, takes the detrending modes
    None and "constant" and refuses any other. *)
Definition sample_extraction (items : list (string * value)) (w : unit)
  : outcome table * unit :=
  match (list_to_map items : gmap string value) !! "detrend" with
  | Some VNone => (Return epochs, w)
  | Some (VStr "constant") => (Return detrended, w)
  | _ => (Raise (ValueError "detrend"), w)
  end.

(** File names without a path separator. *)
Definition plain_name (s : string) : bool :=
  negb (existsb (fun c => bool_decide (c = "/"%char)) (list_ascii_of_string s)).

(** The effective arguments of [get_epochs(detrend=None)] and of
    [get_epochs(detrend='None')], and the cache entry both are filed under. *)
Definition items_None : list (string * value) :=
  [ ("offset", VInt 0); ("duration", VFloat "0.0085"); ("detrend", VNone);
    ("reject_threshold", VNone); ("reject_mode", VStr "absolute");
    ("columns", VStr "auto") ].

Definition items_str_None : list (string * value) :=
  [ ("offset", VInt 0); ("duration", VFloat "0.0085");
    ("detrend", VStr "None"); ("reject_threshold", VNone);
    ("reject_mode", VStr "absolute"); ("columns", VStr "auto") ].

Definition entry_None : string :=
  "get_epochs offset=0, duration=0.0085, detrend=None, reject_threshold=None, reject_mode=absolute, columns=auto.pkl".

(** A root folder with two session folders and a file; the second session
    has lost its EEG array. *)
Definition sample_listdir (path : string) : outcome (list string) :=
  if bool_decide (path = "data") then Return ["s1"; "notes.txt"; "s2"]
  else Raise (OSError "listdir").

Definition sample_isdir (path : string) : bool :=
  bool_decide (path ∈ ["data"; "data/s1"; "data/s2"]).

Definition session1 : ABRFile := {|
  base_path := "data/s1";
  carray_names := ["eeg"; "microphone"];
  ctable_names := ["erp_metadata"];
  erp_metadata := Return [ {[ "reject_threshold" := CNum 1%float ]} ]
|}.

Definition session2 : ABRFile := {|
  base_path := "data/s2";
  carray_names := ["microphone"];
  ctable_names := ["erp_metadata"];
  erp_metadata := Return [ {[ "reject_threshold" := CNum 1%float ]} ]
|}.

Definition sample_open (path : string) : outcome ABRFile :=
  if bool_decide (path = "data/s1") then Return session1
  else if bool_decide (path = "data/s2") then Return session2
  else Raise (OSError "open").

(** A fan-out target: the first session yields [epochs] without its
    missing-sample row, any other one [detrended]; the state counts the
    calls. *)
Definition sample_call (fh : ABRFile) (fn_name : operation)
    (args : list value) (kwargs : gmap string value) (calls : nat)
  : outcome table * nat :=
  (Return (if bool_decide (base_path fh = "data/s1") then dropna epochs
           else detrended),
   S calls).

(** The cache of a recording before any call, and after
    [get_epochs(detrend=None)] on [sample_extraction]. *)
Definition fresh : state (R:=table) (W:=unit) := State None tt 0.

Definition after_None : state (R:=table) (W:=unit) :=
  State (Some {[ entry_None := Return epochs ]}) tt 1.

End Examples.

(** ** The extraction methods *)

Module Extraction.

Import Cache.

Section Methods.

(** [W] is what the signal reads and changes when it extracts (the arrays on
    disk, the random generator). *)
Context {W : Type}.

(** The signal behind the [eeg] property ([BcolzSignal], of [bcolz_tools],
    which is not part of this development): its four extraction methods,
    each on its positional arguments in the order of the calls below. *)
Record BcolzSignal := {
  signal_get_epochs :
    list Series → value → value → value → value → W → outcome table * W;
  signal_get_random_segments :
    value → value → value → value → W → outcome table * W;
  signal_get_epochs_filtered :
    list Series → value → value → value → value → value → value → value →
    value → W → outcome table * W;
  signal_get_random_segments_filtered :
    value → value → value → value → value → value → value → value → W →
    outcome table * W
}.

(** The value of the memoized property [eeg] of a recording, or the
    exception its loading raises. *)
Variable eeg : ABRFile → outcome BcolzSignal.

(** What a method does with the frame the signal returned. *)
Definition finish (self : ABRFile) (extracted : outcome table * W)
    (reject_threshold reject_mode : pyval) : outcome table * W :=
  match extracted with
  | (Raise e, w) => (Raise e, w)
  | (Return result, w) =>
      (_apply_reject self result reject_threshold reject_mode, w)
  end.

(** [ABRFile.get_epochs], the function under the cache. *)
Definition ABRFile_get_epochs (self : ABRFile)
    (offset duration detrend : value) (reject_threshold reject_mode : pyval)
    (columns : value) (w : W) : outcome table * W :=
  match eeg self with
  | Raise e => (Raise e, w)
  | Return signal =>
      match erp_metadata self with
      | Raise e => (Raise e, w)
      | Return metadata =>
          finish self
            (signal_get_epochs signal metadata offset duration detrend
               columns w)
            reject_threshold reject_mode
      end
  end.

(** [ABRFile.get_random_segments]. *)
Definition ABRFile_get_random_segments (self : ABRFile)
    (n offset duration detrend : value) (reject_threshold reject_mode : pyval)
    (w : W) : outcome table * W :=
  match eeg self with
  | Raise e => (Raise e, w)
  | Return signal =>
      finish self
        (signal_get_random_segments signal n offset duration detrend w)
        reject_threshold reject_mode
  end.

(** [ABRFile.get_epochs_filtered]. *)
Definition ABRFile_get_epochs_filtered (self : ABRFile)
    (filter_lb filter_ub filter_order offset duration detrend
     pad_duration : value)
    (reject_threshold reject_mode : pyval) (columns : value) (w : W)
  : outcome table * W :=
  match eeg self with
  | Raise e => (Raise e, w)
  | Return signal =>
      match erp_metadata self with
      | Raise e => (Raise e, w)
      | Return metadata =>
          finish self
            (signal_get_epochs_filtered signal metadata offset duration
               filter_lb filter_ub filter_order detrend pad_duration columns
               w)
            reject_threshold reject_mode
      end
  end.

(** [ABRFile.get_random_segments_filtered]. *)
Definition ABRFile_get_random_segments_filtered (self : ABRFile)
    (n filter_lb filter_ub filter_order offset duration detrend
     pad_duration : value)
    (reject_threshold reject_mode : pyval) (w : W) : outcome table * W :=
  match eeg self with
  | Raise e => (Raise e, w)
  | Return signal =>
      finish self
        (signal_get_random_segments_filtered signal n offset duration
           filter_lb filter_ub filter_order detrend pad_duration w)
        reject_threshold reject_mode
  end.

End Methods.

End Extraction.

(** ** The loader *)

Module Loader.

Import Superset.

(** What [load] returns: a recording or a superset. *)
Inductive experiment :=
  | Single (fh : ABRFile)
  | Merged (fhs : ABRSupersetFile).

Section Load.

Variable BcolzRecording_init : string → outcome ABRFile.
Variable listdir : string → outcome (list string).
Variable isdir : string → bool.

(** [os.path.exists]. *)
Variable path_exists : string → bool.

Definition load (base_folder : string) : outcome experiment :=
  let check := join base_folder "erp" in
  if path_exists check then
    fh ← ABRFile_init BcolzRecording_init base_folder; Return (Single fh)
  else
    fhs ← from_folder BcolzRecording_init listdir isdir base_folder;
    Return (Merged fhs).

(** Every exception of this development is an [Exception], which the
    [except] clause catches. *)
Definition is_abr_experiment (path : string) : bool :=
  match load path with
  | Return _ => true
  | Raise _ => false
  end.

End Load.

End Loader.

(** ** Column names of the trial metadata *)

Module Columns.

(** [s.replace(old, new)] for a non-empty [old]: left to right, every
    occurrence that does not overlap an earlier one. [skip] counts the
    characters of the occurrence being replaced that are still to pass. *)
Fixpoint replace_from (old new : string) (skip : nat) (s : string) : string :=
  match s with
  | EmptyString => EmptyString
  | String c s' =>
      match skip with
      | S k => replace_from old new k s'
      | O =>
          if String.prefix old s then
            new +:+ replace_from old new (String.length old - 1) s'
          else String c (replace_from old new 0 s')
      end
  end.

Definition replace (old new s : string) : string := replace_from old new 0 s.

(** [old in s]. *)
Fixpoint occurs (old s : string) : bool :=
  String.prefix old s ||
  match s with
  | EmptyString => false
  | String _ s' => occurs old s'
  end.

(** The renaming of [erp_metadata]:
    [lambda x: x.replace('target_tone_', '')]. *)
Definition rename_column (x : string) : string := replace "target_tone_" "" x.

(** A frame as it is loaded: column labels and rows of cells. *)
Record frame := Frame { columns : list string; data : list (list cell) }.

(** [DataFrame.rename(columns=f)]. *)
Definition rename (f : string → string) (df : frame) : frame :=
  Frame (map f (columns df)) (data df).

(** The property [ABRFile.erp_metadata], on what [_load_bcolz] gives for the
    table of that name. *)
Definition load_erp_metadata (_load_bcolz : string → outcome frame)
  : outcome frame :=
  df ← _load_bcolz "erp_metadata"; Return (rename rename_column df).

End Columns.

(** ** Sample signals and folders *)

Module Examples2.

Import Cache Superset Extraction Examples.

(** A signal whose every extraction yields [epochs] and counts the call. *)
Definition counting_signal : BcolzSignal (W:=nat) := {|
  signal_get_epochs := fun _ _ _ _ _ w => (Return epochs, S w);
  signal_get_random_segments := fun _ _ _ _ w => (Return epochs, S w);
  signal_get_epochs_filtered :=
    fun _ _ _ _ _ _ _ _ _ w => (Return epochs, S w);
  signal_get_random_segments_filtered :=
    fun _ _ _ _ _ _ _ _ w => (Return epochs, S w)
|}.

Definition sample_eeg (self : ABRFile) : outcome (BcolzSignal (W:=nat)) :=
  Return counting_signal.

(** A recording whose metadata table cannot be read. *)
Definition unreadable : ABRFile := {|
  base_path := "e";
  carray_names := ["eeg"];
  ctable_names := ["erp_metadata"];
  erp_metadata := Raise (OSError "erp_metadata")
|}.

(** A fan-out target that fails on the second session. *)
Definition failing_call (fh : ABRFile) (fn_name : operation)
    (args : list value) (kwargs : gmap string value) (calls : nat)
  : outcome table * nat :=
  if bool_decide (base_path fh = "data/s2") then
    (Raise (KeyError "0"), S calls)
  else (Return epochs, S calls).

(** A folder that holds files only. *)
Definition files_only_listdir (path : string) : outcome (list string) :=
  if bool_decide (path = "docs") then Return ["readme.txt"; "notes.txt"]
  else Raise (OSError "listdir").

Definition files_only_isdir (path : string) : bool :=
  bool_decide (path = "docs").

Definition nothing_exists (path : string) : bool := false.

End Examples2.

(** ** Facts on binary64 comparison *)

Lemma SFcompare_antisym a b c :
  SFcompare a b = Some c → SFcompare b a = Some (CompOpp c).
Proof.
  destruct a as [sa|sa| |sa ma ea], b as [sb|sb| |sb mb eb]; simpl;
    try discriminate; intros [= <-]; try (by destruct sa); try (by destruct sb);
    try (by destruct sa, sb).
  change (Pos.compare_cont Eq ma mb) with (ma ?= mb)%positive.
  change (Pos.compare_cont Eq mb ma) with (mb ?= ma)%positive.
  rewrite (Z.compare_antisym ea eb), (Pos.compare_antisym ma mb).
  by destruct sa, sb, (ea ?= eb)%Z, (ma ?= mb)%positive.
Qed.

Lemma not_nan_compare x y :
  PrimFloat.is_nan x = false → PrimFloat.is_nan y = false →
  ∃ c, SFcompare (Prim2SF x) (Prim2SF y) = Some c.
Proof.
  unfold PrimFloat.is_nan. rewrite !FloatAxioms.eqb_spec. unfold SFeqb.
  destruct (Prim2SF x), (Prim2SF y); simpl; try discriminate; eauto.
Qed.

(** Away from NaN, [x < t] fails exactly when [t <= x]. *)
Lemma ltb_false_iff_leb x t :
  PrimFloat.is_nan x = false → PrimFloat.is_nan t = false →
  (x <? t)%float = false ↔ (t <=? x)%float = true.
Proof.
  intros Hx Ht. destruct (not_nan_compare x t Hx Ht) as [c Hc].
  rewrite FloatAxioms.ltb_spec, FloatAxioms.leb_spec. unfold SFltb, SFleb.
  rewrite Hc, (SFcompare_antisym _ _ _ Hc). by destruct c.
Qed.

Lemma is_finite_not_nan x :
  PrimFloat.is_finite x = true → PrimFloat.is_nan x = false.
Proof.
  unfold PrimFloat.is_finite. by destruct (PrimFloat.is_nan x).
Qed.

(** ** The rejection filter *)

Section RejectionFilter.

Implicit Types (self : ABRFile) (result out : table) (r : row).
Implicit Types (t m : pyval).

Lemma elem_of_rows_dropna result r :
  r ∈ rows (dropna result) ↔ r ∈ rows result ∧ has_na r = false.
Proof.
  unfold dropna; simpl. rewrite !list_elem_of_In, filter_In, negb_true_iff.
  done.
Qed.

Lemma nrows_dropna result : (nrows (dropna result) ≤ nrows result)%nat.
Proof. unfold nrows, dropna; simpl. apply List.filter_length_le. Qed.

Lemma nrows_loc_mask mask result :
  (nrows (loc_mask mask result) ≤ nrows result)%nat.
Proof. unfold nrows, loc_mask; simpl. apply List.filter_length_le. Qed.

Lemma resolve_explicit self t m :
  is_None t = false → resolve self t m = Return (t, m).
Proof. unfold resolve. by intros ->. Qed.

(** The filter once threshold and mode are resolved. *)
Lemma apply_reject_resolved self result t m t' m' :
  resolve self t m = Return (t', m') →
  _apply_reject self result t m =
    if negb (is_np_inf t') then
      if eq_str m' "absolute" then
        x ← as_number t'; Return (loc_mask (all_lt x) (dropna result))
      else if eq_str m' "amplitude" then Raise NotImplementedError
      else Return (dropna result)
    else Return (dropna result).
Proof. unfold _apply_reject. by intros ->. Qed.

(** With [numpy.inf] itself as threshold the screening is skipped, whatever
    the mode. *)
Lemma apply_reject_np_inf self result m :
  _apply_reject self result PNpInf m = Return (dropna result).
Proof. done. Qed.

(** Dropping the missing-sample rows takes exactly those away. *)
Lemma nrows_dropna_count result :
  nrows (dropna result) =
  (nrows result - length (List.filter has_na (rows result)))%nat.
Proof.
  unfold nrows, dropna; simpl. induction (rows result) as [|r l IH]; [done|].
  simpl. destruct (has_na r); simpl; [|rewrite IH].
  - rewrite IH. done.
  - pose proof (List.filter_length_le has_na l). lia.
Qed.

Lemma apply_reject_np_inf_nrows self result m :
  ∃ out,
    _apply_reject self result PNpInf m = Return out ∧
    nrows out = (nrows result - length (List.filter has_na (rows result)))%nat.
Proof.
  exists (dropna result). split; [apply apply_reject_np_inf|].
  apply nrows_dropna_count.
Qed.

(** The filter only removes rows. *)
Lemma apply_reject_nrows self result t m out :
  _apply_reject self result t m = Return out →
  (nrows out ≤ nrows result)%nat.
Proof.
  unfold _apply_reject.
  destruct (resolve self t m) as [[t' m']|e]; simpl; [|done].
  pose proof (nrows_dropna result) as Hd.
  destruct (negb (is_np_inf t')); [|by intros [= <-]].
  destruct (eq_str m' "absolute").
  - destruct (as_number t') as [x|e]; simpl; [|done]. intros [= <-].
    pose proof (nrows_loc_mask (all_lt x) (dropna result)). lia.
  - destruct (eq_str m' "amplitude"); [done|by intros [= <-]].
Qed.

Lemma all_lt_spec x r :
  all_lt x r = true ↔ ∀ v, v ∈ samples r → (v <? x)%float = true.
Proof.
  unfold all_lt. rewrite forallb_forall.
  by setoid_rewrite list_elem_of_In.
Qed.

Lemma has_na_false r v :
  has_na r = false → v ∈ samples r → PrimFloat.is_nan v = false.
Proof.
  unfold has_na. intros Hna Hv. apply list_elem_of_In in Hv.
  destruct (PrimFloat.is_nan v) eqn:E; [|done].
  assert (existsb PrimFloat.is_nan (samples r) = true) as H; [|congruence].
  apply existsb_exists. eauto.
Qed.

Lemma forallb_false {A} (p : A → bool) (l : list A) :
  forallb p l = false → ∃ v, v ∈ l ∧ p v = false.
Proof.
  induction l as [|a l IH]; simpl; [done|].
  destruct (p a) eqn:E; simpl.
  - intros H. destruct (IH H) as (v & Hv & Hp). exists v. split; [by right|done].
  - intros _. exists a. split; [by left|done].
Qed.

(** A row without missing samples fails [all_lt x] exactly when one of its
    samples is at least [x]. *)
Lemma all_lt_false_iff x r :
  PrimFloat.is_nan x = false → has_na r = false →
  all_lt x r = false ↔ ∃ v, v ∈ samples r ∧ (x <=? v)%float = true.
Proof.
  intros Hx Hna. unfold all_lt. split.
  - intros H. apply forallb_false in H as (v & Hv & Hlt).
    exists v. split; [done|].
    apply ltb_false_iff_leb; eauto using has_na_false.
  - intros (v & Hv & Hle).
    destruct (forallb _ _) eqn:E; [|done].
    rewrite forallb_forall in E. apply list_elem_of_In in Hv as Hv'.
    specialize (E v Hv').
    assert ((v <? x)%float = false) as Hf
      by (apply ltb_false_iff_leb; eauto using has_na_false).
    congruence.
Qed.

(** C3 (amended): in absolute mode with a finite resolved threshold [T] the
    filter removes, from the table without its missing-sample rows, exactly
    the rows having a sample whose value is at least [T]; a row survives if
    and only if every sample of it is below [T]. The comparison is on the
    signed sample, not on its magnitude. *)
Theorem absolute_mode_rejects_by_value self result t m T :
  resolve self t m = Return (PNum T, PStr "absolute") →
  PrimFloat.is_finite T = true →
  ∃ out,
    _apply_reject self result t m = Return out ∧
    index_names out = index_names result ∧
    rows out = List.filter (all_lt T) (rows (dropna result)) ∧
    ∀ r, r ∈ rows (dropna result) →
      (r ∈ rows out ↔ ∀ v, v ∈ samples r → (v <? T)%float = true) ∧
      (r ∉ rows out ↔ ∃ v, v ∈ samples r ∧ (T <=? v)%float = true).
Proof.
  intros Hres HT. apply is_finite_not_nan in HT.
  exists (loc_mask (all_lt T) (dropna result)).
  split; [by rewrite (apply_reject_resolved _ _ _ _ _ _ Hres)|].
  split; [done|]. split; [done|].
  intros r Hr. apply elem_of_rows_dropna in Hr as Hna. destruct Hna as [_ Hna].
  assert (r ∈ rows (loc_mask (all_lt T) (dropna result)) ↔ all_lt T r = true)
    as Hin.
  { unfold loc_mask; simpl. rewrite !list_elem_of_In, filter_In.
    rewrite <- list_elem_of_In. split; [by intros [_ ?]|by split]. }
  split.
  - by rewrite Hin, all_lt_spec.
  - rewrite Hin, <- (all_lt_false_iff T r HT Hna).
    by destruct (all_lt T r).
Qed.

(** C4 (amended): with the threshold left unspecified, threshold and mode are
    those of the first metadata row (the mode "absolute" when the row has no
    [reject_mode]), whatever mode was passed, and the filter returns what it
    returns when that threshold and that mode are given explicitly. *)
Theorem reject_fallback_to_metadata self result m frame (first : Series)
    (T : cell) :
  erp_metadata self = Return frame →
  frame !! 0%nat = Some first →
  first !! "reject_threshold" = Some T →
  ∃ mode,
    (first !! "reject_mode" = None → mode = PStr "absolute") ∧
    (∀ c, first !! "reject_mode" = Some c → mode = of_cell c) ∧
    resolve self PNone m = Return (of_cell T, mode) ∧
    _apply_reject self result PNone m =
      _apply_reject self result (of_cell T) mode.
Proof.
  intros Hmeta Hrow HT.
  exists (of_cell (get first "reject_mode" (CStr "absolute"))).
  assert (resolve self PNone m =
          Return (of_cell T, of_cell (get first "reject_mode" (CStr "absolute"))))
    as Hres.
  { unfold resolve; simpl. rewrite Hmeta; simpl.
    destruct frame as [|first' frame']; simplify_eq/=.
    unfold getitem. by rewrite HT. }
  repeat split.
  - unfold get. by intros ->.
  - unfold get. by intros c ->.
  - done.
  - rewrite (apply_reject_resolved _ _ _ _ _ _ Hres).
    symmetry. apply apply_reject_resolved, resolve_explicit. by destruct T.
Qed.

(** C5 (amended): whenever the resolved mode is "amplitude" and the resolved
    threshold is not infinite, the filter raises the not-implemented error
    and returns nothing; with [numpy.inf] as threshold it raises nothing and
    returns the table without its missing-sample rows. *)
Theorem amplitude_mode_not_implemented self result t m t' :
  resolve self t m = Return (t', PStr "amplitude") →
  is_inf t' = false →
  _apply_reject self result t m = Raise NotImplementedError ∧
  _apply_reject self result PNpInf (PStr "amplitude") = Return (dropna result).
Proof.
  intros Hres Hinf. split; [|done].
  rewrite (apply_reject_resolved _ _ _ _ _ _ Hres).
  by destruct t'.
Qed.

(** C10: with an explicit threshold the filter never reads the metadata: two
    recordings give the same result on the same table, threshold and mode. *)
Theorem explicit_rejection_ignores_metadata self1 self2 result t m :
  is_None t = false →
  _apply_reject self1 result t m = _apply_reject self2 result t m.
Proof.
  intros Ht.
  rewrite (apply_reject_resolved self1 result t m t m) by by apply resolve_explicit.
  by rewrite (apply_reject_resolved self2 result t m t m) by by apply resolve_explicit.
Qed.

End RejectionFilter.

Section RejectionFilterExamples.

Import Examples.

Lemma absolute_mode_rejects_by_value_witness :
  resolve legacy PNone (PStr "amplitude") = Return (PNum 1, PStr "absolute") ∧
  PrimFloat.is_finite 1 = true ∧
  ∃ out,
    _apply_reject legacy epochs PNone (PStr "amplitude") = Return out ∧
    rows out = [ Row [LInt 0] [0.5%float; (-5)%float] ].
Proof.
  split; [reflexivity|]. split; [reflexivity|].
  destruct (absolute_mode_rejects_by_value legacy epochs PNone
              (PStr "amplitude") 1 eq_refl eq_refl) as (out & H1 & _ & H2 & _).
  exists out. split; [exact H1|]. rewrite H2. reflexivity.
Defined.

(** The claim as stated fails at a sample of large magnitude and negative
    sign: threshold 1, samples 0.5 and -5; the row is kept. *)
Lemma absolute_mode_keeps_large_negative :
  (1 <=? abs (-5))%float = true ∧
  _apply_reject legacy (Table [] [Row [LInt 0] [0.5%float; (-5)%float]])
    (PNum 1) (PStr "absolute")
  = Return (Table [] [Row [LInt 0] [0.5%float; (-5)%float]]).
Proof. split; reflexivity. Qed.

Lemma reject_fallback_to_metadata_witness :
  _apply_reject legacy epochs PNone (PStr "amplitude") =
  _apply_reject legacy epochs (PNum 1) (PStr "absolute").
Proof.
  destruct (reject_fallback_to_metadata legacy epochs (PStr "amplitude")
              [ {[ "reject_threshold" := CNum 1%float ]} ]
              {[ "reject_threshold" := CNum 1%float ]} (CNum 1)
              eq_refl eq_refl eq_refl) as (mode & Hmode & _ & _ & H).
  rewrite (Hmode eq_refl) in H. exact H.
Defined.

(** The claim as stated fails when the mode passed in is not the one stored:
    on a recording stored with mode "amplitude" and threshold 1, the call
    without a threshold raises, the call with threshold 1 and the same mode
    argument returns a table. *)
Lemma reject_fallback_overrides_mode :
  _apply_reject amplitude_session epochs PNone (PStr "absolute")
    = Raise NotImplementedError ∧
  _apply_reject amplitude_session epochs (PNum 1) (PStr "absolute")
    = Return (Table [Some "t0"] [ Row [LInt 0] [0.5%float; (-5)%float] ]).
Proof. split; reflexivity. Qed.

Lemma amplitude_mode_not_implemented_witness :
  resolve unscreened (PNum 1) (PStr "amplitude")
    = Return (PNum 1, PStr "amplitude") ∧
  is_inf (PNum 1) = false ∧
  _apply_reject unscreened epochs (PNum 1) (PStr "amplitude")
    = Raise NotImplementedError.
Proof.
  split; [reflexivity|]. split; [reflexivity|].
  exact (proj1 (amplitude_mode_not_implemented unscreened epochs (PNum 1)
                  (PStr "amplitude") (PNum 1) eq_refl eq_refl)).
Defined.

(** The claim as stated fails at the threshold [numpy.inf]: amplitude mode
    returns a table. *)
Lemma amplitude_mode_skipped_at_np_inf :
  _apply_reject legacy epochs PNpInf (PStr "amplitude") =
  Return (Table [Some "t0"]
            [ Row [LInt 0] [0.5%float; (-5)%float];
              Row [LInt 1] [0.5%float; 1.5%float] ]).
Proof. reflexivity. Qed.

(** C6: the skip for an infinite threshold tests for the object [numpy.inf],
    which a threshold read from the metadata never is. With an infinite
    threshold in the metadata the filter still screens: amplitude mode raises,
    and absolute mode drops a row with an infinite sample; the same table
    with [numpy.inf] passed in loses only its missing-sample rows. *)
Lemma infinite_metadata_threshold_still_screens :
  _apply_reject unscreened epochs PNone (PStr "absolute")
    = Raise NotImplementedError ∧
  _apply_reject unscreened epochs PNpInf (PStr "amplitude")
    = Return (dropna epochs) ∧
  _apply_reject unscreened_legacy clipped PNone (PStr "absolute")
    = Return (Table [Some "t0"] [ Row [LInt 1] [0.5%float; 1.5%float] ]) ∧
  dropna clipped = clipped.
Proof. repeat split; reflexivity. Qed.

Lemma explicit_rejection_ignores_metadata_witness :
  _apply_reject legacy epochs (PNum 1) (PStr "absolute") =
  _apply_reject unscreened epochs (PNum 1) (PStr "absolute").
Proof.
  exact (explicit_rejection_ignores_metadata legacy unscreened epochs
           (PNum 1) (PStr "absolute") eq_refl).
Defined.

End RejectionFilterExamples.

(** ** The persistent call cache *)

Section StringFacts.

Lemma length_append (s1 s2 : string) :
  String.length (s1 +:+ s2) = (String.length s1 + String.length s2)%nat.
Proof. induction s1 as [|a s1 IH]; simpl; [done|by rewrite IH]. Qed.

Lemma append_inv_tail (s1 s2 t : string) : s1 +:+ t = s2 +:+ t → s1 = s2.
Proof.
  revert s2. induction s1 as [|a s1 IH]; intros [|b s2]; simpl; [done| | |].
  - intros H. apply (f_equal String.length) in H.
    simpl in H. rewrite !length_append in H. simpl in H. lia.
  - intros H. apply (f_equal String.length) in H.
    simpl in H. rewrite !length_append in H. simpl in H. lia.
  - intros [= -> H]. f_equal. by apply IH.
Qed.

Lemma concat_cons sep (x y : string) (l : list string) :
  String.concat sep (x :: y :: l) = x +:+ sep +:+ String.concat sep (y :: l).
Proof. done. Qed.


End StringFacts.

Section CacheKey.

Import Cache.

Implicit Types (items : list (string * value)) (k : string) (v : value).



End CacheKey.

Section CacheWrapper.

Import Cache.

Context {R W : Type}.
Variable f : list (string * value) → W → outcome R * W.
Variable creatable : string → bool.
Variable op : operation.

Implicit Types (st : state (R:=R) (W:=W)) (args : list value).
Implicit Types (kwargs : gmap string value) (items : list (string * value)).

Local Abbreviation wrapped := (wrapper f creatable op).
Local Abbreviation entry_of items := (file_name (co_name op) items).









End CacheWrapper.

Section CacheExamples.

Import Cache Examples.





End CacheExamples.

(** ** Construction *)

Section ConstructionFacts.

Import Superset.

Variable BcolzRecording_init : string → outcome ABRFile.
Variable listdir : string → outcome (list string).
Variable isdir : string → bool.

Local Abbreviation construct := (ABRFile_init BcolzRecording_init).

Lemma comprehension_Forall2 {A B} (g : A → outcome B) xs ys :
  Forall2 (fun x y => g x = Return y) xs ys →
  comprehension g xs = Return ys.
Proof.
  induction 1 as [|x y xs ys Hx _ IH]; simpl; [done|].
  rewrite Hx; simpl. by rewrite IH.
Qed.

Lemma comprehension_raise {A B} (g : A → outcome B) pre x suf ys e :
  Forall2 (fun x y => g x = Return y) pre ys →
  g x = Raise e →
  comprehension g (pre ++ x :: suf)%list = Raise e.
Proof.
  intros Hpre Hx. induction Hpre as [|x0 y0 pre ys H0 _ IH]; simpl.
  - by rewrite Hx.
  - rewrite H0; simpl. by rewrite IH.
Qed.

(** C8: constructing a recording from a location that the storage layer
    opens raises a ValueError at once when the location has no [eeg] array or
    no [erp_metadata] table, and yields the recording when it has both. *)
Theorem recording_construction base_folder self :
  BcolzRecording_init base_folder = Return self →
  ("eeg" ∉ carray_names self →
     construct base_folder = Raise (ValueError "Missing eeg data")) ∧
  ("eeg" ∈ carray_names self → "erp_metadata" ∉ ctable_names self →
     construct base_folder = Raise (ValueError "Missing erp metadata")) ∧
  ("eeg" ∈ carray_names self → "erp_metadata" ∈ ctable_names self →
     construct base_folder = Return self) ∧
  (returns (construct base_folder) = true ↔
     "eeg" ∈ carray_names self ∧ "erp_metadata" ∈ ctable_names self).
Proof.
  intros Hopen. unfold ABRFile_init. rewrite Hopen; simpl.
  destruct (decide ("eeg" ∈ carray_names self)) as [Heeg|Heeg];
    [rewrite (bool_decide_eq_true_2 _ Heeg)
    |rewrite (bool_decide_eq_false_2 _ Heeg)]; simpl.
  - destruct (decide ("erp_metadata" ∈ ctable_names self)) as [Hmd|Hmd];
      [rewrite (bool_decide_eq_true_2 _ Hmd)
      |rewrite (bool_decide_eq_false_2 _ Hmd)]; simpl.
    + repeat split; intros; done.
    + repeat split; intros; try done. by destruct H.
  - repeat split; intros; try done. by destruct H.
Qed.

(** C9 (amended): building a superset from a root folder takes the
    subdirectories of the root, in listing order, as candidate locations and
    skips the other entries. When every candidate constructs, the superset
    holds their recordings in that order; when one fails, its error is
    raised and no superset is built. *)
Theorem from_folder_construction base_folder names :
  listdir base_folder = Return names →
  (∀ p, p ∈ List.filter isdir (map (join base_folder) names) ↔
        ∃ entry, entry ∈ names ∧ p = join base_folder entry ∧ isdir p = true) ∧
  (∀ fhs,
     Forall2 (fun p fh => construct p = Return fh)
       (List.filter isdir (map (join base_folder) names)) fhs →
     from_folder BcolzRecording_init listdir isdir base_folder =
       Return {| _fh := fhs; _base_folder := Some base_folder |}) ∧
  (∀ pre p suf fhs e,
     List.filter isdir (map (join base_folder) names) = (pre ++ p :: suf)%list →
     Forall2 (fun p fh => construct p = Return fh) pre fhs →
     construct p = Raise e →
     from_folder BcolzRecording_init listdir isdir base_folder = Raise e).
Proof.
  intros Hls. split; [|split].
  - intros p. rewrite list_elem_of_In, filter_In, in_map_iff. split.
    + intros [(entry & <- & Hin) Hdir]. exists entry.
      by rewrite list_elem_of_In.
    + intros (entry & Hin & -> & Hdir). split; [|done].
      exists entry. by rewrite <- list_elem_of_In.
  - intros fhs Hall. unfold from_folder, ABRSupersetFile_init.
    rewrite Hls; simpl. by rewrite (comprehension_Forall2 _ _ _ Hall).
  - intros pre p suf fhs e Hcand Hpre Hp.
    unfold from_folder, ABRSupersetFile_init. rewrite Hls; simpl.
    by rewrite Hcand, (comprehension_raise _ _ _ _ _ _ Hpre Hp).
Qed.

End ConstructionFacts.

(** ** Fan-out *)

Section FanOutFacts.

Import Cache Superset.

Context {St : Type}.
Variable call :
  ABRFile → operation → list value → gmap string value → St → outcome table * St.

Implicit Types (fhs : list ABRFile) (ts : list table) (s : St).

Lemma fan_out_comprehension fn_name args kwargs fhs s ts s' :
  fan_out call fn_name args kwargs fhs s ts s' →
  comprehension_st (fun fh => call fh fn_name args kwargs) fhs s
    = (Return ts, s').
Proof.
  induction 1 as [|fh fhs t ts s s1 s2 Hcall _ IH]; simpl; [done|].
  by rewrite Hcall, IH.
Qed.

Lemma fan_out_length fn_name args kwargs fhs s ts s' :
  fan_out call fn_name args kwargs fhs s ts s' → length ts = length fhs.
Proof. induction 1; simpl; by f_equal. Qed.

(** The keys [n, n+1, ...] zipped with the frames number the frames. *)
Lemma zip_with_range_imap {B} (g : label → table → B) n ts :
  zip_with g (map (fun i => LInt (Z.of_nat i)) (seq n (length ts))) ts
  = imap (fun i t => g (LInt (Z.of_nat (n + i))) t) ts.
Proof.
  revert n. induction ts as [|t ts IH]; intros n; simpl; [done|].
  rewrite Nat.add_0_r. f_equal. rewrite IH. apply imap_ext.
  intros i x _. simpl. by rewrite Nat.add_succ_r.
Qed.

Lemma length_imap_rows (g : nat → row → row) ts :
  length <$> imap (fun i t => map (g i) (rows t)) ts = nrows <$> ts.
Proof.
  revert g. induction ts as [|t ts IH]; intros g; simpl; [done|].
  rewrite length_map. f_equal. apply (IH (fun i => g (S i))).
Qed.

Lemma concat_returns ts keys names :
  ts ≠ [] →
  ∃ first,
    head ts = Some first ∧
    concat ts keys names =
      Return (Table (names ++ index_names first)
                (mjoin (zip_with (fun key t => map (add_level key) (rows t))
                          keys ts))).
Proof. destruct ts as [|t ts]; [done|]. intros _. by exists t. Qed.

(** C7 (amended): for a superset of at least one recording, when the
    operation returns a table on each constituent, called in order with the
    given arguments on the running state, the fan-out returns their
    concatenation: as many rows as the tables have together, a new outermost
    index level named [file], and every row of the table of constituent [i]
    (counting from 0) with [i] at that level, in constituent order. For a
    superset without recordings the fan-out raises. *)
Theorem superset_provenance (self : ABRSupersetFile) fn_name args kwargs s :
  (_fh self = [] →
   _merge_results call self fn_name args kwargs s =
     (Raise (ValueError "No objects to concatenate"), s)) ∧
  (∀ ts s',
   _fh self ≠ [] →
   fan_out call fn_name args kwargs (_fh self) s ts s' →
   ∃ merged,
     _merge_results call self fn_name args kwargs s = (Return merged, s') ∧
     length ts = length (_fh self) ∧
     nrows merged = sum_list (nrows <$> ts) ∧
     head (index_names merged) = Some (Some "file") ∧
     rows merged =
       mjoin (imap (fun i t => add_level (LInt (Z.of_nat i)) <$> rows t) ts) ∧
     (∀ r, r ∈ rows merged ↔
           ∃ (i : nat) t r0, ts !! i = Some t ∧ r0 ∈ rows t ∧
                             r = add_level (LInt (Z.of_nat i)) r0)).
Proof.
  split; [unfold _merge_results; by intros ->|]. intros ts s'.
  intros Hne Hfan.
  pose proof (fan_out_length _ _ _ _ _ _ _ Hfan) as Hlen.
  unfold _merge_results. rewrite (fan_out_comprehension _ _ _ _ _ _ _ Hfan).
  assert (ts ≠ []) as Hts.
  { intros ->. destruct (_fh self); [done|discriminate]. }
  destruct (concat_returns ts (range (length (_fh self))) [Some "file"] Hts)
    as (first & _ & ->).
  eexists. split; [reflexivity|]. simpl.
  unfold range. rewrite <- Hlen, (zip_with_range_imap _ 0 ts). simpl.
  assert (Hrows : ∀ r,
    r ∈ mjoin (imap (fun i t => map (add_level (LInt (Z.of_nat i))) (rows t)) ts)
    ↔ ∃ (i : nat) t r0, ts !! i = Some t ∧ r0 ∈ rows t ∧
                        r = add_level (LInt (Z.of_nat i)) r0).
  { intros r. rewrite list_elem_of_join. split.
    - intros (l & Hr & Hl). apply elem_of_lookup_imap in Hl as (i & t & -> & Ht).
      apply list_elem_of_fmap in Hr as (r0 & -> & Hr0). by exists i, t, r0.
    - intros (i & t & r0 & Ht & Hr0 & ->).
      exists (map (add_level (LInt (Z.of_nat i))) (rows t)). split.
      + apply list_elem_of_fmap. by exists r0.
      + apply elem_of_lookup_imap. by exists i, t. }
  repeat split; try done.
  - unfold nrows at 1; simpl. rewrite length_join. f_equal.
    apply (length_imap_rows (fun i => add_level (LInt (Z.of_nat i)))).
  - apply Hrows.
  - apply Hrows.
Qed.

End FanOutFacts.

Section SupersetExamples.

Import Cache Superset Examples.

Lemma recording_construction_witness :
  sample_open "data/s1" = Return session1 ∧
  ABRFile_init sample_open "data/s1" = Return session1.
Proof.
  split; [reflexivity|].
  apply (recording_construction sample_open "data/s1" session1 eq_refl);
    repeat constructor.
Defined.

Lemma from_folder_construction_witness :
  sample_listdir "data" = Return ["s1"; "notes.txt"; "s2"] ∧
  from_folder sample_open sample_listdir sample_isdir "data"
    = Raise (ValueError "Missing eeg data").
Proof.
  split; [reflexivity|].
  apply (proj2 (proj2 (from_folder_construction sample_open sample_listdir
           sample_isdir "data" ["s1"; "notes.txt"; "s2"] eq_refl))
         ["data/s1"] "data/s2" [] [session1]).
  - reflexivity.
  - repeat constructor.
  - reflexivity.
Defined.

(** The claim as stated fails on a root with a valid session, a file and a
    session that lacks its EEG array: the valid session constructs, yet no
    superset is built from it; the failure of the other one is raised. *)
Lemma from_folder_does_not_skip_failures :
  sample_listdir "data" = Return ["s1"; "notes.txt"; "s2"] ∧
  sample_isdir "data/s1" = true ∧
  sample_isdir "data/notes.txt" = false ∧
  sample_isdir "data/s2" = true ∧
  ABRFile_init sample_open "data/s1" = Return session1 ∧
  ABRFile_init sample_open "data/s2" = Raise (ValueError "Missing eeg data") ∧
  from_folder sample_open sample_listdir sample_isdir "data"
    = Raise (ValueError "Missing eeg data").
Proof. repeat split; reflexivity. Qed.

Lemma superset_provenance_witness :
  ∃ merged,
    _merge_results sample_call
      {| _fh := [session1; session2]; _base_folder := None |}
      get_epochs [] ∅ 0%nat = (Return merged, 2%nat) ∧
    rows merged =
      [ Row [LInt 0; LInt 0] [0.5%float; (-5)%float];
        Row [LInt 0; LInt 1] [0.5%float; 1.5%float];
        Row [LInt 1; LInt 0] [2.75%float; (-2.75)%float];
        Row [LInt 1; LInt 1] [(-0.5)%float; 0.5%float] ].
Proof.
  destruct (proj2 (superset_provenance sample_call
                     {| _fh := [session1; session2]; _base_folder := None |}
                     get_epochs [] ∅ 0%nat) [dropna epochs; detrended] 2%nat)
    as (merged & Hcall & _ & _ & _ & Hrows & _).
  - discriminate.
  - eapply fan_out_cons; [reflexivity|].
    eapply fan_out_cons; [reflexivity|]. apply fan_out_nil.
  - exists merged. split; [exact Hcall|]. rewrite Hrows. reflexivity.
Defined.

(** The claim as stated fails on a superset without constituents: the
    fan-out raises, it does not return an empty table. *)
Lemma empty_superset_raises :
  _merge_results sample_call {| _fh := []; _base_folder := Some "data" |}
    get_epochs [] ∅ 0%nat
  = (Raise (ValueError "No objects to concatenate"), 0%nat).
Proof. reflexivity. Qed.

End SupersetExamples.

(** ** Further facts on the rejection filter *)

Section RejectionFilterMore.

Implicit Types (self : ABRFile) (result out : table) (r : row).
Implicit Types (t m : pyval).

Lemma filter_sublist {A} (p : A → bool) (l : list A) :
  sublist (List.filter p l) l.
Proof.
  induction l as [|a l IH]; simpl; [constructor|].
  destruct (p a); by constructor.
Qed.

Lemma filter_id {A} (p : A → bool) (l : list A) :
  (∀ a, a ∈ l → p a = true) → List.filter p l = l.
Proof.
  induction l as [|a l IH]; simpl; [done|]. intros H.
  rewrite (H a) by by left. f_equal. apply IH. intros b Hb. apply H. by right.
Qed.

Lemma filter_idemp {A} (p : A → bool) (l : list A) :
  List.filter p (List.filter p l) = List.filter p l.
Proof.
  apply filter_id. intros a Ha. apply list_elem_of_In, filter_In in Ha.
  by destruct Ha.
Qed.

Lemma dropna_idemp result : dropna (dropna result) = dropna result.
Proof. unfold dropna; simpl. by rewrite filter_idemp. Qed.

Lemma dropna_loc_mask mask result :
  dropna (loc_mask mask (dropna result)) = loc_mask mask (dropna result).
Proof.
  unfold dropna, loc_mask; simpl. f_equal. apply filter_id.
  intros r Hr. apply list_elem_of_In, filter_In in Hr as [Hr _].
  apply filter_In in Hr. by destruct Hr.
Qed.

Lemma loc_mask_idemp mask result :
  loc_mask mask (loc_mask mask result) = loc_mask mask result.
Proof. unfold loc_mask; simpl. by rewrite filter_idemp. Qed.

Lemma apply_reject_subtable self result t m out :
  _apply_reject self result t m = Return out →
  index_names out = index_names result ∧
  sublist (rows out) (rows result) ∧
  ∀ r, r ∈ rows out → has_na r = false.
Proof.
  unfold _apply_reject.
  destruct (resolve self t m) as [[t' m']|e]; simpl; [|done].
  assert (index_names (dropna result) = index_names result ∧
          sublist (rows (dropna result)) (rows result) ∧
          ∀ r, r ∈ rows (dropna result) → has_na r = false) as Hdrop.
  { split; [done|]. split; [apply filter_sublist|].
    intros r Hr. by apply elem_of_rows_dropna in Hr as [_ ?]. }
  destruct (negb (is_np_inf t')); [|by intros [= <-]].
  destruct (eq_str m' "absolute").
  - destruct (as_number t') as [x|e]; simpl; [|done]. intros [= <-].
    destruct Hdrop as (Hn & Hs & Hna). split; [done|]. split.
    + etrans; [apply filter_sublist|done].
    + intros r Hr. apply Hna. simpl in Hr.
      apply list_elem_of_In, filter_In in Hr as [Hr _].
      by apply list_elem_of_In.
  - destruct (eq_str m' "amplitude"); [done|by intros [= <-]].
Qed.

(** X7: what the filter returns is the table with some rows taken out: same
    index levels, the surviving rows in their order, none of them with a
    missing sample. *)
Theorem reject_returns_subtable self result t m out :
  _apply_reject self result t m = Return out →
  index_names out = index_names result ∧
  sublist (rows out) (rows result) ∧
  ∀ r, r ∈ rows out → has_na r = false.
Proof. apply apply_reject_subtable. Qed.

(** X8: filtering twice is filtering once: on its own output, with the same
    threshold and mode, the filter returns that output. *)
Theorem reject_idempotent self result t m out :
  _apply_reject self result t m = Return out →
  _apply_reject self out t m = Return out.
Proof.
  unfold _apply_reject.
  destruct (resolve self t m) as [[t' m']|e]; simpl; [|done].
  destruct (negb (is_np_inf t')); [|intros [= <-]; by rewrite dropna_idemp].
  destruct (eq_str m' "absolute").
  - destruct (as_number t') as [x|e]; simpl; [|done]. intros [= <-].
    by rewrite dropna_loc_mask, loc_mask_idemp.
  - destruct (eq_str m' "amplitude"); [done|].
    intros [= <-]. by rewrite dropna_idemp.
Qed.


(** X10: a mode other than "absolute" and "amplitude" (a misspelt one, say)
    switches the screening off without an error: with an explicit threshold
    of any kind the table comes back with only its missing-sample rows
    dropped. *)
Theorem unknown_mode_screens_nothing self result t m :
  is_None t = false →
  eq_str m "absolute" = false →
  eq_str m "amplitude" = false →
  _apply_reject self result t m = Return (dropna result).
Proof.
  intros Ht Habs Hamp.
  rewrite (apply_reject_resolved self result t m t m)
    by by apply resolve_explicit.
  rewrite Habs, Hamp. by destruct (negb (is_np_inf t)).
Qed.

End RejectionFilterMore.

Section RejectionFilterMoreExamples.

Import Examples.

Lemma reject_returns_subtable_witness :
  _apply_reject legacy epochs PNone (PStr "absolute")
    = Return (Table [Some "t0"] [ Row [LInt 0] [0.5%float; (-5)%float] ]) ∧
  sublist [ Row [LInt 0] [0.5%float; (-5)%float] ] (rows epochs).
Proof.
  split; [reflexivity|].
  exact (proj1 (proj2 (reject_returns_subtable legacy epochs PNone
           (PStr "absolute")
           (Table [Some "t0"] [ Row [LInt 0] [0.5%float; (-5)%float] ])
           eq_refl))).
Defined.

Lemma reject_idempotent_witness :
  _apply_reject legacy epochs PNone (PStr "absolute")
    = Return (Table [Some "t0"] [ Row [LInt 0] [0.5%float; (-5)%float] ]) ∧
  _apply_reject legacy
    (Table [Some "t0"] [ Row [LInt 0] [0.5%float; (-5)%float] ])
    PNone (PStr "absolute")
    = Return (Table [Some "t0"] [ Row [LInt 0] [0.5%float; (-5)%float] ]).
Proof.
  split; [reflexivity|].
  exact (reject_idempotent legacy epochs PNone (PStr "absolute") _ eq_refl).
Defined.

Lemma unknown_mode_screens_nothing_witness :
  _apply_reject legacy epochs (PNum 1) (PStr "Absolute")
    = Return (dropna epochs).
Proof.
  exact (unknown_mode_screens_nothing legacy epochs (PNum 1) (PStr "Absolute")
           eq_refl eq_refl eq_refl).
Defined.

End RejectionFilterMoreExamples.

(** ** Thresholds compared *)

Section Thresholds.

Import Examples.

Lemma SFcompare_Lt_le_trans a b c o :
  SFcompare a b = Some Lt →
  SFcompare b c = Some o → o ≠ Gt →
  SFcompare a c = Some Lt.
Proof.
  destruct a as [sa|sa| |sa ma ea], b as [sb|sb| |sb mb eb],
    c as [sc|sc| |sc mc ec]; simpl; try discriminate;
    repeat match goal with s : bool |- _ => destruct s end; simpl;
    try discriminate; try done;
    try (intros _ [= <-] ?; done).
  all: change (Pos.compare_cont Eq ?x ?y) with (x ?= y)%positive.
  all: intros [= H1] [= H2] Ho; f_equal; subst o;
    destruct (Z.compare_spec ea eb), (Z.compare_spec eb ec),
      (Z.compare_spec ea ec); try discriminate; try lia; try done;
    subst;
    destruct (Pos.compare_spec ma mb), (Pos.compare_spec mb mc),
      (Pos.compare_spec ma mc); simpl in *; try discriminate; try lia; try done.
Qed.

(** Below [x] and [x <= y] is below [y]. *)
Lemma ltb_leb_trans (v x y : float) :
  (v <? x)%float = true → (x <=? y)%float = true → (v <? y)%float = true.
Proof.
  rewrite !FloatAxioms.ltb_spec, FloatAxioms.leb_spec. unfold SFltb, SFleb.
  destruct (SFcompare (Prim2SF v) (Prim2SF x)) as [[| |]|] eqn:H1; try done.
  destruct (SFcompare (Prim2SF x) (Prim2SF y)) as [o|] eqn:H2; [|done].
  intros _ Ho.
  rewrite (SFcompare_Lt_le_trans _ _ _ o H1 H2); [done|]. by destruct o.
Qed.

Lemma filter_sublist_mono {A} (p q : A → bool) (l : list A) :
  (∀ a, p a = true → q a = true) →
  sublist (List.filter p l) (List.filter q l).
Proof.
  intros Hpq. induction l as [|a l IH]; simpl; [constructor|].
  destruct (p a) eqn:Hp.
  - rewrite (Hpq a Hp). by constructor.
  - destruct (q a); [by constructor|done].
Qed.

(** X11: in absolute mode a higher threshold keeps every epoch a lower one keeps:
    the table returned for [T1] is, row for row in order, part of the table
    returned for any [T2] with [T1 <= T2]. *)
Theorem higher_threshold_keeps_more (self : ABRFile) (result : table)
    (T1 T2 : float) :
  (T1 <=? T2)%float = true →
  ∃ out1 out2,
    _apply_reject self result (PNum T1) (PStr "absolute") = Return out1 ∧
    _apply_reject self result (PNum T2) (PStr "absolute") = Return out2 ∧
    sublist (rows out1) (rows out2) ∧
    (nrows out1 ≤ nrows out2)%nat.
Proof.
  intros Hle.
  exists (loc_mask (all_lt T1) (dropna result)),
         (loc_mask (all_lt T2) (dropna result)).
  split; [done|]. split; [done|].
  assert (sublist (rows (loc_mask (all_lt T1) (dropna result)))
                  (rows (loc_mask (all_lt T2) (dropna result)))) as Hsub.
  { apply filter_sublist_mono. intros r. rewrite !all_lt_spec.
    intros H v Hv. eapply ltb_leb_trans; [by apply H|done]. }
  split; [done|]. by apply sublist_length.
Qed.

Lemma higher_threshold_keeps_more_witness :
  (1 <=? 2)%float = true ∧
  sublist [ Row [LInt 0] [0.5%float; (-5)%float] ]
          [ Row [LInt 0] [0.5%float; (-5)%float];
            Row [LInt 1] [0.5%float; 1.5%float] ].
Proof.
  split; [reflexivity|].
  destruct (higher_threshold_keeps_more legacy epochs 1 2 eq_refl)
    as (out1 & out2 & H1 & H2 & Hsub & _).
  injection H1 as <-. injection H2 as <-. exact Hsub.
Defined.

End Thresholds.

(** ** Further facts on the call cache *)

Section CacheEntries.

Import Cache.

(** X4: the entries of different operations never collide, whatever their
    arguments: the name starts with the operation's own name and a space. *)
Theorem operations_never_share_entries (op1 op2 : operation)
    (items1 items2 : list (string * value)) :
  op1 ≠ op2 →
  file_name (co_name op1) items1 ≠ file_name (co_name op2) items2.
Proof.
  intros Hne Heq. unfold file_name in Heq.
  destruct op1, op2; try done; simpl in Heq; discriminate.
Qed.

End CacheEntries.

Section CacheWrapperMore.

Import Cache.

Context {R W : Type}.
Variable f : list (string * value) → W → outcome R * W.
Variable creatable : string → bool.
Variable op : operation.

Implicit Types (st : state (R:=R) (W:=W)) (args : list value).
Implicit Types (kwargs : gmap string value) (items : list (string * value)).

Local Abbreviation wrapped := (wrapper f creatable op).
Local Abbreviation entry_of items := (file_name (co_name op) items).

Lemma entries_State (d : gmap string (outcome R)) (w : W) (n : nat) :
  entries (State (Some d) w n) = d.
Proof. done. Qed.


(** X6: a call touches no entry but its own: entries are never removed, at most
    one is added, and an entry whose content changes is the one under the
    call's derived name, which then holds the result the call returned. The
    extraction is invoked at most once. *)
Theorem call_touches_only_its_entry args refresh kwargs st out st1 :
  wrapped args refresh kwargs st = (out, st1) →
  dom (entries st) ⊆ dom (entries st1) ∧
  (size (entries st1) ≤ S (size (entries st)))%nat ∧
  (invocations st ≤ invocations st1 ≤ S (invocations st))%nat ∧
  ∀ nm, entries st1 !! nm ≠ entries st !! nm →
    ∃ items r,
      effective (signature_of op) args kwargs = Return items ∧
      nm = entry_of items ∧
      out = Return r ∧
      entries st1 !! nm = Some (Return r).
Proof.
  unfold wrapper.
  destruct (effective (signature_of op) args kwargs) as [items|e] eqn:Heff.
  2:{ intros [= <- <-]. repeat split; try done; try lia;
        try (intros nm Hnm; by destruct Hnm). }
  destruct (if refresh then None else entries st !! entry_of items)
    as [entry|].
  { intros [= <- <-]. rewrite ?entries_State. simpl. repeat split; try done; try lia;
      try (intros nm Hnm; by destruct Hnm). }
  destruct (f items (world st)) as [[r|e] w].
  2:{ intros [= <- <-]. rewrite ?entries_State. simpl. repeat split; try done; try lia;
        try (intros nm Hnm; by destruct Hnm). }
  destruct (creatable (entry_of items)).
  2:{ intros [= <- <-]. rewrite ?entries_State. simpl. repeat split; try done; try lia;
        try (intros nm Hnm; by destruct Hnm). }
  intros [= <- <-]. rewrite ?entries_State. simpl. repeat split.
  - rewrite dom_insert. set_solver.
  - destruct (entries st !! entry_of items) eqn:Hl.
    + rewrite map_size_insert_Some by done. lia.
    + rewrite map_size_insert_None by done. lia.
  - lia.
  - lia.
  - intros nm Hnm. exists items, r.
    destruct (decide (nm = entry_of items)) as [->|Hne].
    + by rewrite lookup_insert_eq.
    + by rewrite lookup_insert_ne in Hnm.
Qed.

End CacheWrapperMore.

Section CacheMoreExamples.

Import Cache Examples.

Lemma operations_never_share_entries_witness :
  get_epochs ≠ get_epochs_filtered ∧
  file_name (co_name get_epochs) items_None
  ≠ file_name (co_name get_epochs_filtered) items_None.
Proof.
  split; [discriminate|].
  exact (operations_never_share_entries get_epochs get_epochs_filtered
           items_None items_None ltac:(discriminate)).
Defined.


Lemma call_touches_only_its_entry_witness :
  (size (entries after_None) ≤ S (size (entries fresh)))%nat ∧
  (invocations fresh ≤ invocations after_None ≤ S (invocations fresh))%nat.
Proof.
  assert (wrapper sample_extraction plain_name get_epochs [] false
            {[ "detrend" := VNone ]} fresh = (Return epochs, after_None))
    as Hcall by reflexivity.
  destruct (call_touches_only_its_entry sample_extraction plain_name
              get_epochs [] false {[ "detrend" := VNone ]} fresh
              (Return epochs) after_None Hcall) as (_ & H1 & H2 & _).
  split; [exact H1|exact H2].
Defined.

End CacheMoreExamples.

(** ** Binding the arguments of a call *)

Section Binding.

Import Cache.

Implicit Types (s ps rest : list parameter) (args : list value).
Implicit Types (kwargs kw arguments acc : gmap string value).

Lemma bind_positional_spec ps args kw acc acc' rest :
  NoDup (name <$> ps) →
  bind_positional ps args kw acc = Return (acc', rest) →
  (length args ≤ length ps)%nat ∧
  rest = drop (length args) ps ∧
  (∀ i p, ps !! i = Some p → (i < length args)%nat → kw !! name p = None) ∧
  (∀ i p a, ps !! i = Some p → args !! i = Some a →
            acc' !! name p = Some a) ∧
  (∀ k, k ∉ name <$> take (length args) ps → acc' !! k = acc !! k).
Proof.
  revert ps acc. induction args as [|a args IH]; intros ps acc Hnd; simpl.
  { intros Heq. assert (acc' = acc ∧ rest = ps) as [-> ->]
      by (destruct ps; by simplify_eq/=).
    repeat split; try done; try lia. }
  destruct ps as [|p ps]; [done|]. simpl.
  case_bool_decide as Hkw; [done|]. intros Hrec.
  apply NoDup_cons in Hnd as [Hp Hnd].
  destruct (IH _ _ Hnd Hrec) as (Hlen & Hrest & Hfree & Hval & Hother).
  split; [simpl; lia|]. split; [done|]. split; [|split].
  - intros [|i] q Hq Hi; simplify_eq/=.
    + destruct (kw !! name q) eqn:E; [|done]. destruct Hkw. by eexists.
    + apply (Hfree i); [done|lia].
  - intros [|i] q b Hq Hb; simplify_eq/=.
    + rewrite Hother; [by rewrite lookup_insert_eq|].
      intros Hin. apply Hp. apply list_elem_of_fmap in Hin as (q' & -> & Hq').
      apply list_elem_of_fmap. exists q'. split; [done|].
      by apply (subseteq_take (length args) ps).
    + by apply (Hval i).
  - intros k Hk. rewrite Hother.
    + rewrite lookup_insert_ne; [done|]. intros <-. apply Hk. by left.
    + intros Hin. apply Hk. by right.
Qed.

Lemma bind_keywords_spec ps kw acc acc' kw' :
  bind_keywords ps kw acc = Return (acc', kw') →
  (∀ k v, k ∈ name <$> ps → kw !! k = Some v → acc' !! k = Some v) ∧
  (∀ k, k ∉ name <$> ps ∨ kw !! k = None → acc' !! k = acc !! k) ∧
  (∀ k, k ∈ name <$> ps → kw' !! k = None) ∧
  (∀ k, k ∉ name <$> ps → kw' !! k = kw !! k) ∧
  (∀ p, p ∈ ps → kw !! name p = None → is_Some (default p)).
Proof.
  revert kw acc. induction ps as [|p ps IH]; intros kw acc; simpl.
  { intros Heq. simplify_eq. repeat split; try done.
    - intros k v Hk. by apply elem_of_nil in Hk.
    - intros k Hk. by apply elem_of_nil in Hk.
    - intros p Hp. by apply elem_of_nil in Hp. }
  assert (∀ k, k ∈ name p :: (name <$> ps) ↔ k = name p ∨ k ∈ name <$> ps)
    as Hcons by (intros k; apply elem_of_cons).
  destruct (kw !! name p) as [v|] eqn:Hkw.
  - intros Hrec.
    destruct (IH _ _ Hrec) as (Hin & Hout & Hleft & Hkeep & Hdef).
    split; [|split; [|split; [|split]]].
    + intros k u Hk Hu. destruct (decide (k = name p)) as [->|Hne].
      * assert (u = v) as -> by congruence.
        rewrite Hout; [apply lookup_insert_eq|]. right. apply lookup_delete_eq.
      * apply Hin; [|by rewrite lookup_delete_ne].
        apply Hcons in Hk as [?|?]; done.
    + intros k Hk. destruct (decide (k = name p)) as [->|Hne].
      * destruct Hk as [Hk|Hk]; [|congruence]. destruct Hk. by left.
      * rewrite Hout, lookup_insert_ne; [done..|].
        destruct Hk as [Hk|Hk].
        -- left. intros Hk'. apply Hk. by right.
        -- right. by rewrite lookup_delete_ne.
    + intros k Hk. destruct (decide (k ∈ name <$> ps)) as [Hin'|Hnin].
      * by apply Hleft.
      * rewrite Hkeep by done. apply Hcons in Hk as [->|?]; [|done].
        apply lookup_delete_eq.
    + intros k Hk. rewrite Hkeep.
      * rewrite lookup_delete_ne; [done|]. intros <-. apply Hk. by left.
      * intros Hk'. apply Hk. by right.
    + intros q Hq Hnone. apply elem_of_cons in Hq as [->|Hq]; [congruence|].
      apply Hdef; [done|].
      destruct (decide (name q = name p)) as [Heq|Hne].
      * rewrite Heq. apply lookup_delete_eq.
      * by rewrite lookup_delete_ne.
  - destruct (default p) as [d|] eqn:Hd; [|done].
    intros Hrec.
    destruct (IH _ _ Hrec) as (Hin & Hout & Hleft & Hkeep & Hdef).
    split; [|split; [|split; [|split]]].
    + intros k u Hk Hu. apply Hin; [|done].
      apply Hcons in Hk as [->|?]; [congruence|done].
    + intros k Hk. apply Hout. destruct Hk as [Hk|Hk]; [|by right].
      left. intros Hk'. apply Hk. by right.
    + intros k Hk. destruct (decide (k ∈ name <$> ps)) as [Hin'|Hnin].
      * by apply Hleft.
      * rewrite Hkeep by done. apply Hcons in Hk as [->|?]; done.
    + intros k Hk. apply Hkeep. intros Hk'. apply Hk. by right.
    + intros q Hq Hnone. apply elem_of_cons in Hq as [->|Hq]; [by eexists|].
      by apply Hdef.
Qed.

Lemma apply_defaults_spec s arguments :
  (∀ p, p ∈ s → is_Some (arguments !! name p) ∨ is_Some (default p)) →
  (apply_defaults s arguments).*1 = name <$> s ∧
  ∀ i p, s !! i = Some p →
    ∃ v, apply_defaults s arguments !! i = Some (name p, v) ∧
         match arguments !! name p with
         | Some a => v = a
         | None => default p = Some v
         end.
Proof.
  induction s as [|q s IH]; intros Hall; simpl; [done|].
  destruct IH as [IHn IHv].
  { intros p Hp. apply Hall. by right. }
  destruct (arguments !! name q) as [a|] eqn:Ha.
  - split; [simpl; by f_equal|].
    intros [|i] p Hp; simplify_eq/=.
    + exists a. by rewrite Ha.
    + by apply IHv.
  - destruct (default q) as [d|] eqn:Hd.
    + split; [simpl; by f_equal|].
      intros [|i] p Hp; simplify_eq/=.
      * exists d. by rewrite Ha.
      * by apply IHv.
    + destruct (Hall q) as [[? ?]|[? ?]]; [by left|congruence..].
Qed.

Lemma bind_raises_TypeError_positional ps args kw acc e :
  bind_positional ps args kw acc = Raise e → e = TypeError.
Proof.
  revert ps acc. induction args as [|a args IH]; intros [|p ps] acc; simpl;
    try done; try by intros [= <-].
  case_bool_decide; [by intros [= <-]|]. apply IH.
Qed.

Lemma bind_raises_TypeError_keywords ps kw acc e :
  bind_keywords ps kw acc = Raise e → e = TypeError.
Proof.
  revert kw acc. induction ps as [|p ps IH]; intros kw acc; simpl; [done|].
  destruct (kw !! name p); [apply IH|].
  destruct (default p); [apply IH|by intros [= <-]].
Qed.

(** Whatever is wrong with the arguments of a call, it is a TypeError. *)
Lemma effective_raises_TypeError s args kwargs e :
  effective s args kwargs = Raise e → e = TypeError.
Proof.
  unfold effective, bind.
  destruct (bind_positional s args kwargs ∅) as [[acc rest]|e1] eqn:H1; simpl.
  2:{ intros [= <-]. by eapply bind_raises_TypeError_positional. }
  destruct (bind_keywords rest kwargs acc) as [[acc' kw']|e2] eqn:H2; simpl.
  2:{ intros [= <-]. by eapply bind_raises_TypeError_keywords. }
  case_bool_decide; simpl; [done|by intros [= <-]].
Qed.

(** A call that binds: what it was given, and the effective arguments. *)
Lemma effective_spec s args kwargs items :
  NoDup (name <$> s) →
  effective s args kwargs = Return items →
  (length args ≤ length s)%nat ∧
  (∀ k, is_Some (kwargs !! k) → k ∈ name <$> s) ∧
  (∀ i p, s !! i = Some p → is_Some (args !! i) → kwargs !! name p = None) ∧
  items.*1 = name <$> s ∧
  ∀ i p, s !! i = Some p →
    ∃ v, items !! i = Some (name p, v) ∧
         match args !! i, kwargs !! name p with
         | Some a, _ => v = a
         | None, Some b => v = b
         | None, None => default p = Some v
         end.
Proof.
  intros Hnd. unfold effective, bind.
  destruct (bind_positional s args kwargs ∅) as [[acc rest]|e1] eqn:H1;
    simpl; [|done].
  destruct (bind_keywords rest kwargs acc) as [[acc' kw']|e2] eqn:H2;
    simpl; [|done].
  case_bool_decide as Hempty; simpl; [|done]. intros [= <-]. subst kw'.
  destruct (bind_positional_spec _ _ _ _ _ _ Hnd H1)
    as (Hlen & -> & Hfree & Hpos & Hother).
  destruct (bind_keywords_spec _ _ _ _ _ H2)
    as (Hin & Hout & _ & Hkeep & Hdef).
  (* the names of the signature split into the positional and the other ones *)
  assert (∀ i p, s !! i = Some p → (i < length args)%nat →
            name p ∉ name <$> drop (length args) s) as Hsplit1.
  { intros i p Hp Hi Hin'.
    apply list_elem_of_fmap in Hin' as (q & Hq & Hq').
    apply list_elem_of_lookup in Hq' as (j & Hj). rewrite lookup_drop in Hj.
    assert (i = length args + j)%nat; [|lia].
    eapply (NoDup_lookup _ _ _ _ Hnd); rewrite list_lookup_fmap.
    - by rewrite Hp.
    - by rewrite Hj, Hq. }
  assert (∀ i p, s !! i = Some p → (length args ≤ i)%nat →
            name p ∈ name <$> drop (length args) s ∧
            name p ∉ name <$> take (length args) s) as Hsplit2.
  { intros i p Hp Hi. split.
    - apply list_elem_of_fmap. exists p. split; [done|].
      apply list_elem_of_lookup. exists (i - length args)%nat.
      rewrite lookup_drop. by replace (length args + (i - length args))%nat
        with i by lia.
    - intros Hin'. apply list_elem_of_fmap in Hin' as (q & Hq & Hq').
      apply elem_of_take in Hq' as (j & Hj & Hjlt).
      assert (i = j); [|lia].
      eapply (NoDup_lookup _ _ _ _ Hnd); rewrite list_lookup_fmap.
      + by rewrite Hp.
      + by rewrite Hj, Hq. }
  assert (∀ i p, s !! i = Some p → is_Some (args !! i) →
            kwargs !! name p = None) as Hgiven.
  { intros i p Hp Hi. apply lookup_lt_is_Some in Hi. by apply (Hfree i). }
  split; [done|]. split; [|split; [done|]].
  { intros k [v Hk]. destruct (decide (k ∈ name <$> s)) as [|Hnot]; [done|].
    assert (k ∉ name <$> drop (length args) s) as Hk'.
    { intros Hk'. apply Hnot.
      apply list_elem_of_fmap in Hk' as (q & -> & Hq).
      apply list_elem_of_fmap. exists q. split; [done|].
      by apply (subseteq_drop (length args) s). }
    rewrite <- (Hkeep k Hk'), lookup_empty in Hk. done. }
  destruct (apply_defaults_spec s acc') as [Hnames Hvals].
  { intros p Hp. apply list_elem_of_lookup in Hp as (i & Hp).
    destruct (decide (i < length args)%nat) as [Hi|Hi].
    - left. destruct (lookup_lt_is_Some_2 args i Hi) as [a Ha].
      exists a. rewrite Hout; [by apply (Hpos i)|].
      left. by apply (Hsplit1 i).
    - destruct (Hsplit2 i p Hp) as [Hp1 Hp2]; [lia|].
      destruct (kwargs !! name p) as [b|] eqn:Hb.
      + left. exists b. by apply Hin.
      + right. apply Hdef; [|done]. apply list_elem_of_lookup.
        exists (i - length args)%nat. rewrite lookup_drop.
        by replace (length args + (i - length args))%nat with i by lia. }
  split; [done|]. intros i p Hp.
  destruct (Hvals i p Hp) as (v & Hv & Hval). exists v. split; [done|].
  destruct (args !! i) as [a|] eqn:Ha.
  - assert (acc' !! name p = Some a) as Hacc.
    { rewrite Hout; [by apply (Hpos i)|]. left. apply (Hsplit1 i); [done|].
      by apply lookup_lt_Some in Ha. }
    by rewrite Hacc in Hval.
  - apply lookup_ge_None in Ha. destruct (Hsplit2 i p Hp Ha) as [Hp1 Hp2].
    destruct (kwargs !! name p) as [b|] eqn:Hb.
    + by rewrite (Hin _ _ Hp1 Hb) in Hval.
    + rewrite Hout, Hother, lookup_empty in Hval by (done || by right). done.
Qed.

Lemma bind_positional_ok ps args kw acc :
  (length args ≤ length ps)%nat →
  (∀ i p, ps !! i = Some p → (i < length args)%nat → kw !! name p = None) →
  ∃ acc', bind_positional ps args kw acc
          = Return (acc', drop (length args) ps).
Proof.
  revert ps acc. induction args as [|a args IH]; intros ps acc Hlen Hfree.
  { exists acc. by destruct ps. }
  destruct ps as [|p ps]; simpl in *; [lia|].
  rewrite bool_decide_eq_false_2.
  - apply IH; [lia|]. intros i q Hq Hi. apply (Hfree (S i)); [done|lia].
  - rewrite (Hfree 0%nat p); [|done|lia]. by intros [? ?].
Qed.

Lemma bind_keywords_ok ps kw acc :
  NoDup (name <$> ps) →
  (∀ p, p ∈ ps → kw !! name p = None → is_Some (default p)) →
  ∃ acc' kw', bind_keywords ps kw acc = Return (acc', kw').
Proof.
  revert kw acc. induction ps as [|p ps IH]; intros kw acc Hnd Hdef; simpl.
  { by eexists _, _. }
  apply NoDup_cons in Hnd as [Hp Hnd].
  destruct (kw !! name p) as [v|] eqn:Hkw.
  - apply IH; [done|]. intros q Hq Hnone. apply Hdef; [by right|].
    rewrite lookup_delete_ne in Hnone; [done|].
    intros Heq. apply Hp. rewrite Heq. apply list_elem_of_fmap. by exists q.
  - destruct (Hdef p) as [d Hd]; [by left|done|]. rewrite Hd.
    apply IH; [done|]. intros q Hq. apply Hdef. by right.
Qed.

Lemma effective_ok s args kwargs :
  NoDup (name <$> s) →
  (length args ≤ length s)%nat →
  (∀ k, is_Some (kwargs !! k) → k ∈ name <$> s) →
  (∀ i p, s !! i = Some p → is_Some (args !! i) → kwargs !! name p = None) →
  (∀ i p, s !! i = Some p → args !! i = None → kwargs !! name p = None →
          is_Some (default p)) →
  returns (effective s args kwargs) = true.
Proof.
  intros Hnd Hlen Hkeys Hfree Hdef. unfold effective, bind.
  destruct (bind_positional_ok s args kwargs ∅ Hlen) as [acc H1].
  { intros i p Hp Hi. apply (Hfree i p Hp). by apply lookup_lt_is_Some. }
  rewrite H1; simpl.
  assert (NoDup (name <$> drop (length args) s)) as Hnd'.
  { rewrite fmap_drop. eapply sublist_NoDup; [done|apply sublist_drop]. }
  destruct (bind_keywords_ok (drop (length args) s) kwargs acc Hnd')
    as (acc' & kw' & H2).
  { intros p Hp Hnone. apply list_elem_of_lookup in Hp as (j & Hj).
    rewrite lookup_drop in Hj. apply (Hdef _ p Hj); [|done].
    apply lookup_ge_None. lia. }
  rewrite H2; simpl.
  destruct (bind_keywords_spec _ _ _ _ _ H2) as (_ & _ & Hleft & Hkeep & _).
  rewrite bool_decide_eq_true_2; [done|].
  apply map_eq. intros k. rewrite lookup_empty.
  destruct (decide (k ∈ name <$> drop (length args) s)) as [Hk|Hk];
    [by apply Hleft|].
  rewrite (Hkeep k Hk). destruct (kwargs !! k) as [v|] eqn:Hv; [|done].
  assert (k ∈ name <$> s) as Hin by (apply Hkeys; by eexists). exfalso.
  apply list_elem_of_fmap in Hin as (p & -> & Hp).
  apply list_elem_of_lookup in Hp as (i & Hi).
  destruct (decide (i < length args)%nat) as [Hlt|Hge].
  - rewrite (Hfree i p Hi) in Hv; [done|]. by apply lookup_lt_is_Some.
  - apply Hk. apply list_elem_of_fmap. exists p. split; [done|].
    apply list_elem_of_lookup. exists (i - length args)%nat.
    rewrite lookup_drop.
    by replace (length args + (i - length args))%nat with i by lia.
Qed.

Lemma signature_NoDup (op : operation) : NoDup (name <$> signature_of op).
Proof. destruct op; by apply (bool_decide_unpack _). Qed.

(** X1: the effective arguments of a call that binds name every parameter of the
    operation once, in the order of its signature, each with the value given
    for it positionally, else with the one given by keyword, else with its
    default. *)
Theorem effective_arguments (op : operation) args kwargs
    (items : list (string * value)) :
  effective (signature_of op) args kwargs = Return items →
  items.*1 = name <$> signature_of op ∧
  ∀ i p, signature_of op !! i = Some p →
    ∃ v, items !! i = Some (name p, v) ∧
         match args !! i, kwargs !! name p with
         | Some a, _ => v = a
         | None, Some b => v = b
         | None, None => default p = Some v
         end.
Proof.
  intros Heff.
  destruct (effective_spec _ _ _ _ (signature_NoDup op) Heff)
    as (_ & _ & _ & Hnames & Hvals).
  by split.
Qed.

(** X2: a call binds exactly when it gives no more positional arguments than the
    operation has parameters, only keywords that name a parameter, no
    parameter both ways, and a value for every parameter without a
    default. *)
Theorem call_binds_iff (op : operation) args kwargs :
  returns (effective (signature_of op) args kwargs) = true ↔
  (length args ≤ length (signature_of op))%nat ∧
  (∀ k, is_Some (kwargs !! k) → k ∈ name <$> signature_of op) ∧
  (∀ i p, signature_of op !! i = Some p → is_Some (args !! i) →
          kwargs !! name p = None) ∧
  (∀ i p, signature_of op !! i = Some p → args !! i = None →
          kwargs !! name p = None → is_Some (default p)).
Proof.
  split.
  - destruct (effective (signature_of op) args kwargs) as [items|e] eqn:Heff;
      [intros _|done].
    destruct (effective_spec _ _ _ _ (signature_NoDup op) Heff)
      as (Hlen & Hkeys & Hfree & _ & Hvals).
    repeat split; try done.
    intros i p Hp Ha Hk. destruct (Hvals i p Hp) as (v & _ & Hv).
    rewrite Ha, Hk in Hv. by exists v.
  - intros (Hlen & Hkeys & Hfree & Hdef).
    by apply effective_ok; [apply signature_NoDup|..].
Qed.

End Binding.

Section IllFormedCalls.

Import Cache.

Context {R W : Type}.
Variable f : list (string * value) → W → outcome R * W.
Variable creatable : string → bool.
Variable op : operation.

(** X3: a call whose arguments do not bind raises a TypeError before anything
    happens: the extraction is not invoked, no entry is read or written and
    the cache directory is not created. *)
Theorem ill_formed_call_changes_nothing (args : list value) (refresh : bool)
    (kwargs : gmap string value) (st : state (R:=R) (W:=W)) :
  returns (effective (signature_of op) args kwargs) = false →
  wrapper f creatable op args refresh kwargs st = (Raise TypeError, st).
Proof.
  unfold wrapper.
  destruct (effective (signature_of op) args kwargs) as [items|e] eqn:Heff;
    [done|]. intros _.
  by rewrite (effective_raises_TypeError _ _ _ _ Heff).
Qed.

End IllFormedCalls.

Section BindingExamples.

Import Cache Examples.

Lemma effective_arguments_witness :
  effective (signature_of get_epochs) [VInt 0] {[ "detrend" := VNone ]}
    = Return items_None ∧
  items_None.*1 = name <$> signature_of get_epochs.
Proof.
  split; [reflexivity|].
  assert (effective (signature_of get_epochs) [VInt 0]
            {[ "detrend" := VNone ]} = Return items_None) as Heff
    by reflexivity.
  exact (proj1 (effective_arguments get_epochs [VInt 0]
                  {[ "detrend" := VNone ]} items_None Heff)).
Defined.

Lemma ill_formed_call_changes_nothing_witness :
  returns (effective (signature_of get_random_segments) [] ∅) = false ∧
  wrapper sample_extraction plain_name get_random_segments [] false ∅ fresh
    = (Raise TypeError, fresh).
Proof.
  split; [reflexivity|].
  assert (returns (effective (signature_of get_random_segments) [] ∅) = false)
    as Hbad by reflexivity.
  exact (ill_formed_call_changes_nothing sample_extraction plain_name
           get_random_segments [] false ∅ fresh Hbad).
Defined.

End BindingExamples.

(** ** Further facts on supersets *)

Section SupersetConstruction.

Import Superset.

Variable BcolzRecording_init : string → outcome ABRFile.

Local Abbreviation construct := (ABRFile_init BcolzRecording_init).

Lemma comprehension_returns {A B} (g : A → outcome B) xs ys :
  comprehension g xs = Return ys →
  Forall2 (fun x y => g x = Return y) xs ys.
Proof.
  revert ys. induction xs as [|x xs IH]; intros ys; simpl.
  { intros [= <-]. constructor. }
  destruct (g x) as [y|e] eqn:Hx; simpl; [|done].
  destruct (comprehension g xs) as [ys'|e] eqn:Hxs; simpl; [|done].
  intros [= <-]. constructor; [done|by apply IH].
Qed.

Lemma comprehension_raises {A B} (g : A → outcome B) xs e :
  comprehension g xs = Raise e →
  ∃ pre x suf ys,
    xs = (pre ++ x :: suf)%list ∧
    Forall2 (fun x y => g x = Return y) pre ys ∧
    g x = Raise e.
Proof.
  induction xs as [|x xs IH]; simpl; [done|].
  destruct (g x) as [y|e'] eqn:Hx; simpl.
  - destruct (comprehension g xs) as [ys'|e''] eqn:Hxs; simpl; [done|].
    intros [= ->]. destruct IH as (pre & x' & suf & ys & -> & Hpre & Hx');
      [done|].
    exists (x :: pre), x', suf, (y :: ys). split; [done|].
    split; [by constructor|done].
  - intros [= ->]. exists [], x, xs, []. split; [done|].
    split; [constructor|done].
Qed.

(** X15: a superset built from a list of locations is all or nothing: it is built
    exactly when every location constructs, and then holds one recording per
    location in the order given; otherwise the error raised is that of the
    first location that fails, the ones before it having constructed. *)
Theorem superset_init_all_or_nothing (base_folders : list string) :
  (∀ inst,
     ABRSupersetFile_init BcolzRecording_init base_folders = Return inst ↔
     Forall2 (fun p fh => construct p = Return fh) base_folders (_fh inst) ∧
     _base_folder inst = None) ∧
  (∀ e,
     ABRSupersetFile_init BcolzRecording_init base_folders = Raise e ↔
     ∃ pre p suf fhs,
       base_folders = (pre ++ p :: suf)%list ∧
       Forall2 (fun p fh => construct p = Return fh) pre fhs ∧
       construct p = Raise e).
Proof.
  unfold ABRSupersetFile_init. split.
  - intros [fh bf]. split.
    + destruct (comprehension construct base_folders) as [fhs|e] eqn:Hc;
        simpl; [|done].
      intros [= <- <-]. split; [|done]. by apply comprehension_returns.
    + simpl. intros [Hall ->].
      by rewrite (comprehension_Forall2 _ _ _ Hall).
  - intros e. split.
    + destruct (comprehension construct base_folders) as [fhs|e'] eqn:Hc;
        simpl; [done|].
      intros [= ->]. by apply comprehension_raises.
    + intros (pre & p & suf & fhs & -> & Hpre & Hp).
      by rewrite (comprehension_raise _ _ _ _ _ _ Hpre Hp).
Qed.

End SupersetConstruction.

Section FanOutFailure.

Import Cache Superset.

Context {St : Type}.
Variable call :
  ABRFile → operation → list value → gmap string value → St → outcome table * St.

Lemma comprehension_st_app_raise fn_name args kwargs pre fh suf s ts s1 e s2 :
  fan_out call fn_name args kwargs pre s ts s1 →
  call fh fn_name args kwargs s1 = (Raise e, s2) →
  comprehension_st (fun fh => call fh fn_name args kwargs)
    (pre ++ fh :: suf)%list s = (Raise e, s2).
Proof.
  intros Hpre Hfh.
  induction Hpre as [|fh0 fhs t ts s s' s'' Hcall _ IH]; simpl.
  - by rewrite Hfh.
  - by rewrite Hcall, IH.
Qed.

(** X16: the fan-out stops at the first constituent whose operation raises: it
    raises that exception, the state is the one that call left (the
    constituents before it have been called, those after it have not), and
    nothing is concatenated. *)
Theorem fan_out_stops_at_first_failure (self : ABRSupersetFile) fn_name
    args kwargs pre fh suf s ts s1 e s2 :
  _fh self = (pre ++ fh :: suf)%list →
  fan_out call fn_name args kwargs pre s ts s1 →
  call fh fn_name args kwargs s1 = (Raise e, s2) →
  _merge_results call self fn_name args kwargs s = (Raise e, s2).
Proof.
  intros Hfh Hpre Hcall. unfold _merge_results. rewrite Hfh.
  by rewrite (comprehension_st_app_raise _ _ _ _ _ _ _ _ _ _ _ Hpre Hcall).
Qed.

End FanOutFailure.

(** ** The extraction methods *)

Section ExtractionFacts.

Import Cache Extraction.

Context {W : Type}.
Variable eeg : ABRFile → outcome (BcolzSignal (W:=W)).

Implicit Types (self : ABRFile) (w : W) (out raw : table).
Implicit Types (reject_threshold reject_mode : pyval).

Lemma finish_returns self extracted reject_threshold reject_mode out w' :
  finish self extracted reject_threshold reject_mode = (Return out, w') →
  ∃ raw,
    extracted = (Return raw, w') ∧
    _apply_reject self raw reject_threshold reject_mode = Return out ∧
    sublist (rows out) (rows raw) ∧
    ∀ r, r ∈ rows out → has_na r = false.
Proof.
  unfold finish. destruct extracted as [[raw|e] w]; [|done].
  intros [= Hrej <-]. exists raw. split; [done|]. split; [done|].
  by destruct (apply_reject_subtable _ _ _ _ _ Hrej) as (_ & ? & ?).
Qed.

(** X12: what a trial-anchored extraction returns is what the signal extracted
    for the recording's metadata and the extraction arguments (the rejection
    arguments are not passed on), screened by the rejection filter: its rows
    are rows of the signal's table, in order, and none has a missing
    sample. *)
Theorem epochs_are_screened_signal_output self
    (filter_lb filter_ub filter_order offset duration detrend pad_duration
     columns : value) reject_threshold reject_mode w out w' :
  (ABRFile_get_epochs eeg self offset duration detrend reject_threshold
     reject_mode columns w = (Return out, w') →
   ∃ signal metadata raw,
     eeg self = Return signal ∧ erp_metadata self = Return metadata ∧
     signal_get_epochs signal metadata offset duration detrend columns w
       = (Return raw, w') ∧
     _apply_reject self raw reject_threshold reject_mode = Return out ∧
     sublist (rows out) (rows raw) ∧
     ∀ r, r ∈ rows out → has_na r = false) ∧
  (ABRFile_get_epochs_filtered eeg self filter_lb filter_ub filter_order
     offset duration detrend pad_duration reject_threshold reject_mode
     columns w = (Return out, w') →
   ∃ signal metadata raw,
     eeg self = Return signal ∧ erp_metadata self = Return metadata ∧
     signal_get_epochs_filtered signal metadata offset duration filter_lb
       filter_ub filter_order detrend pad_duration columns w
       = (Return raw, w') ∧
     _apply_reject self raw reject_threshold reject_mode = Return out ∧
     sublist (rows out) (rows raw) ∧
     ∀ r, r ∈ rows out → has_na r = false).
Proof.
  split.
  - unfold ABRFile_get_epochs.
    destruct (eeg self) as [signal|e]; [|done].
    destruct (erp_metadata self) as [metadata|e]; [|done].
    intros Hfin. apply finish_returns in Hfin as (raw & ? & ? & ? & ?).
    by exists signal, metadata, raw.
  - unfold ABRFile_get_epochs_filtered.
    destruct (eeg self) as [signal|e]; [|done].
    destruct (erp_metadata self) as [metadata|e]; [|done].
    intros Hfin. apply finish_returns in Hfin as (raw & ? & ? & ? & ?).
    by exists signal, metadata, raw.
Qed.

(** X13: the random-segment extractions read the metadata only to resolve an
    unspecified threshold: with an explicit threshold, two recordings with
    the same signal give the same result whatever their metadata. *)
Theorem random_segments_ignore_metadata self1 self2
    (n filter_lb filter_ub filter_order offset duration detrend
     pad_duration : value) reject_threshold reject_mode w :
  eeg self1 = eeg self2 →
  is_None reject_threshold = false →
  ABRFile_get_random_segments eeg self1 n offset duration detrend
    reject_threshold reject_mode w
  = ABRFile_get_random_segments eeg self2 n offset duration detrend
      reject_threshold reject_mode w ∧
  ABRFile_get_random_segments_filtered eeg self1 n filter_lb filter_ub
    filter_order offset duration detrend pad_duration reject_threshold
    reject_mode w
  = ABRFile_get_random_segments_filtered eeg self2 n filter_lb filter_ub
      filter_order offset duration detrend pad_duration reject_threshold
      reject_mode w.
Proof.
  intros Heeg Hthr.
  assert (∀ extracted : outcome table * W,
    finish self1 extracted reject_threshold reject_mode
    = finish self2 extracted reject_threshold reject_mode) as Hfin.
  { intros [[raw|e] w0]; simpl; [|done]. f_equal.
    rewrite (apply_reject_resolved self1 raw _ _ reject_threshold reject_mode)
      by by apply resolve_explicit.
    by rewrite (apply_reject_resolved self2 raw _ _ reject_threshold
                  reject_mode) by by apply resolve_explicit. }
  unfold ABRFile_get_random_segments, ABRFile_get_random_segments_filtered.
  rewrite Heeg. destruct (eeg self2) as [signal|e]; [|done].
  by rewrite !Hfin.
Qed.

(** X14: when the metadata of a recording cannot be loaded, a trial-anchored
    extraction raises the loading error before the signal is called (the
    world is untouched), even with an explicit threshold; a random-segment
    extraction without a threshold raises it only after the signal has
    extracted, and the world is the one the signal left. *)
Theorem unreadable_metadata self signal e
    (n filter_lb filter_ub filter_order offset duration detrend pad_duration
     columns : value) reject_threshold reject_mode w raw w' :
  eeg self = Return signal →
  erp_metadata self = Raise e →
  ABRFile_get_epochs eeg self offset duration detrend reject_threshold
    reject_mode columns w = (Raise e, w) ∧
  ABRFile_get_epochs_filtered eeg self filter_lb filter_ub filter_order
    offset duration detrend pad_duration reject_threshold reject_mode
    columns w = (Raise e, w) ∧
  (signal_get_random_segments signal n offset duration detrend w
     = (Return raw, w') →
   ABRFile_get_random_segments eeg self n offset duration detrend PNone
     reject_mode w = (Raise e, w')).
Proof.
  intros Heeg Hmeta.
  unfold ABRFile_get_epochs, ABRFile_get_epochs_filtered,
    ABRFile_get_random_segments.
  rewrite Heeg, Hmeta. split; [done|]. split; [done|].
  intros ->. simpl. unfold _apply_reject, resolve. simpl. by rewrite Hmeta.
Qed.

End ExtractionFacts.

Section ExtractionExamples.

Import Cache Extraction Examples Examples2.

Lemma epochs_are_screened_signal_output_witness :
  ABRFile_get_epochs sample_eeg legacy (VInt 0) (VFloat "0.0085")
    (VStr "constant") PNone (PStr "absolute") (VStr "auto") 0%nat
  = (Return (Table [Some "t0"] [ Row [LInt 0] [0.5%float; (-5)%float] ]),
     1%nat) ∧
  sublist [ Row [LInt 0] [0.5%float; (-5)%float] ] (rows epochs).
Proof.
  split; [reflexivity|].
  destruct (proj1 (epochs_are_screened_signal_output sample_eeg legacy
              (VInt 300) (VInt 3000) (VInt 1) (VInt 0) (VFloat "0.0085")
              (VStr "constant") (VFloat "0.01") (VStr "auto") PNone
              (PStr "absolute") 0%nat
              (Table [Some "t0"] [ Row [LInt 0] [0.5%float; (-5)%float] ])
              1%nat) eq_refl)
    as (signal & metadata & raw & Hs & _ & Hraw & _ & Hsub & _).
  injection Hs as <-. injection Hraw as <-. exact Hsub.
Defined.

Lemma random_segments_ignore_metadata_witness :
  ABRFile_get_random_segments sample_eeg legacy (VInt 5) (VInt 0)
    (VFloat "0.0085") (VStr "constant") (PNum 1) (PStr "absolute") 0%nat
  = ABRFile_get_random_segments sample_eeg unreadable (VInt 5) (VInt 0)
      (VFloat "0.0085") (VStr "constant") (PNum 1) (PStr "absolute") 0%nat.
Proof.
  exact (proj1 (random_segments_ignore_metadata sample_eeg legacy unreadable
                  (VInt 5) (VInt 300) (VInt 3000) (VInt 1) (VInt 0)
                  (VFloat "0.0085") (VStr "constant") (VFloat "0.01")
                  (PNum 1) (PStr "absolute") 0%nat eq_refl eq_refl)).
Defined.

Lemma unreadable_metadata_witness :
  ABRFile_get_epochs sample_eeg unreadable (VInt 0) (VFloat "0.0085")
    (VStr "constant") (PNum 1) (PStr "absolute") (VStr "auto") 0%nat
  = (Raise (OSError "erp_metadata"), 0%nat) ∧
  ABRFile_get_random_segments sample_eeg unreadable (VInt 5) (VInt 0)
    (VFloat "0.0085") (VStr "constant") PNone (PStr "absolute") 0%nat
  = (Raise (OSError "erp_metadata"), 1%nat).
Proof.
  destruct (unreadable_metadata sample_eeg unreadable counting_signal
              (OSError "erp_metadata") (VInt 5) (VInt 300) (VInt 3000)
              (VInt 1) (VInt 0) (VFloat "0.0085") (VStr "constant")
              (VFloat "0.01") (VStr "auto") (PNum 1) (PStr "absolute") 0%nat
              epochs 1%nat eq_refl eq_refl) as (H1 & _ & H3).
  split; [exact H1|exact (H3 eq_refl)].
Defined.

End ExtractionExamples.

(** ** The loader *)

Section LoaderFacts.

Import Cache Superset Loader.

Variable BcolzRecording_init : string → outcome ABRFile.
Variable listdir : string → outcome (list string).
Variable isdir : string → bool.
Variable path_exists : string → bool.

Local Abbreviation construct := (ABRFile_init BcolzRecording_init).
Local Abbreviation loaded :=
  (load BcolzRecording_init listdir isdir path_exists).
Local Abbreviation accepted :=
  (is_abr_experiment BcolzRecording_init listdir isdir path_exists).

Lemma comprehension_returns_iff {A B} (g : A → outcome B) xs :
  returns (comprehension g xs) = true ↔ ∀ x, x ∈ xs → returns (g x) = true.
Proof.
  induction xs as [|x xs IH]; simpl.
  { split; [|done]. intros _ x Hx. by apply elem_of_nil in Hx. }
  destruct (g x) as [y|e] eqn:Hx; simpl.
  - destruct (comprehension g xs) as [ys|e]; simpl.
    + split; [|done]. intros _ x' Hx'.
      apply elem_of_cons in Hx' as [->|Hx']; [by rewrite Hx|].
      by apply IH.
    + split; [done|]. intros H. apply IH. intros x' Hx'. apply H. by right.
  - split; [done|]. intros H. specialize (H x). rewrite Hx in H.
    apply H. by left.
Qed.

(** X17: a path is reported as an ABR experiment exactly when it either has an
    [erp] entry and constructs as a recording, or has none, can be listed,
    and every subdirectory of it constructs as a recording. No exception
    escapes. *)
Theorem is_abr_experiment_iff (path : string) :
  accepted path = true ↔
  (path_exists (join path "erp") = true ∧ returns (construct path) = true) ∨
  (path_exists (join path "erp") = false ∧
   ∃ names,
     listdir path = Return names ∧
     ∀ q, q ∈ List.filter isdir (map (join path) names) →
          returns (construct q) = true).
Proof.
  unfold is_abr_experiment, load, from_folder, ABRSupersetFile_init.
  destruct (path_exists (join path "erp")).
  - destruct (construct path); simpl;
      (split; [intros ?; try done; by left|by intros [[_ ?]|[? _]]]).
  - destruct (listdir path) as [names|e]; simpl.
    + pose proof (comprehension_returns_iff construct
                    (List.filter isdir (map (join path) names))) as Hiff.
      destruct (comprehension construct _) as [fhs|e]; simpl in *.
      * split; [|done]. intros _. right. split; [done|].
        exists names. split; [done|]. by apply Hiff.
      * split; [done|]. intros [[? _]|[_ (names' & [= <-] & Hall)]];
          [done|]. by apply Hiff in Hall.
    + split; [done|]. by intros [[? _]|[_ (names' & ? & _)]].
Qed.

(** X18: a folder with no [erp] entry and no subdirectory (an empty folder, a
    folder of files) is reported as an ABR experiment: it loads as a
    superset without recordings, every retrieval of which raises. *)
Theorem folder_without_sessions_is_accepted {St : Type}
    (call : ABRFile → operation → list value → gmap string value → St →
            outcome table * St)
    (path : string) (names : list string) fn_name args kwargs (s : St) :
  path_exists (join path "erp") = false →
  listdir path = Return names →
  (∀ entry, entry ∈ names → isdir (join path entry) = false) →
  accepted path = true ∧
  loaded path = Return (Merged {| _fh := []; _base_folder := Some path |}) ∧
  _merge_results call {| _fh := []; _base_folder := Some path |} fn_name
    args kwargs s
  = (Raise (ValueError "No objects to concatenate"), s).
Proof.
  intros Hno Hls Hfiles.
  assert (List.filter isdir (map (join path) names) = []) as Hnone.
  { clear Hls. induction names as [|entry names IH]; simpl; [done|].
    rewrite (Hfiles entry) by by left.
    apply IH. intros e He. apply Hfiles. by right. }
  assert (loaded path
          = Return (Merged {| _fh := []; _base_folder := Some path |}))
    as Hload.
  { unfold load, from_folder, ABRSupersetFile_init.
    rewrite Hno, Hls; simpl. by rewrite Hnone. }
  split; [|split; [done|done]].
  unfold is_abr_experiment. by rewrite Hload.
Qed.

End LoaderFacts.

Section LoaderExamples.

Import Cache Superset Loader Examples Examples2.

Lemma folder_without_sessions_is_accepted_witness :
  nothing_exists (join "docs" "erp") = false ∧
  files_only_listdir "docs" = Return ["readme.txt"; "notes.txt"] ∧
  is_abr_experiment sample_open files_only_listdir files_only_isdir
    nothing_exists "docs" = true.
Proof.
  split; [reflexivity|]. split; [reflexivity|].
  refine (proj1 (folder_without_sessions_is_accepted sample_open
            files_only_listdir files_only_isdir nothing_exists sample_call
            "docs" ["readme.txt"; "notes.txt"] get_epochs [] ∅ 0%nat
            eq_refl eq_refl _)).
  intros entry Hentry.
  apply elem_of_cons in Hentry as [->|Hentry]; [reflexivity|].
  apply elem_of_cons in Hentry as [->|Hentry]; [reflexivity|].
  by apply elem_of_nil in Hentry.
Defined.

Lemma fan_out_stops_at_first_failure_witness :
  _merge_results failing_call
    {| _fh := [session1; session2; legacy]; _base_folder := None |}
    get_epochs [] ∅ 0%nat
  = (Raise (KeyError "0"), 2%nat).
Proof.
  apply (fan_out_stops_at_first_failure failing_call
           {| _fh := [session1; session2; legacy]; _base_folder := None |}
           get_epochs [] ∅ [session1] session2 [legacy] 0%nat [epochs]
           1%nat (KeyError "0") 2%nat).
  - reflexivity.
  - eapply fan_out_cons; [reflexivity|]. apply fan_out_nil.
  - reflexivity.
Defined.

End LoaderExamples.

(** ** Column names of the trial metadata *)

Section ColumnFacts.

Import Columns.

Lemma prefix_app (old s : string) :
  String.prefix old s = true ↔ ∃ suf, s = old +:+ suf.
Proof.
  revert s. induction old as [|c old IH]; intros s.
  { split; [by exists s|]. intros _. by destruct s. }
  destruct s as [|d s]; simpl.
  { split; [done|]. by intros [suf ?]. }
  destruct (ascii_dec c d) as [->|Hne].
  - rewrite IH. split; intros [suf H]; exists suf; [by rewrite H|].
    simpl in H. by injection H.
  - split; [done|]. intros [suf H]. simpl in H. injection H as H1 H2.
    by destruct Hne.
Qed.

(** Once inside an occurrence, the rest of it is passed over. *)
Lemma replace_from_skip old new (o s : string) :
  replace_from old new (String.length o) (o +:+ s) = replace_from old new 0 s.
Proof.
  induction o as [|c o IH]; simpl; [|done].
  destruct s; [done|]. simpl. done.
Qed.

Lemma replace_at_occurrence old new (s : string) :
  old ≠ "" → replace old new (old +:+ s) = new +:+ replace old new s.
Proof.
  intros Hne. destruct old as [|c o]; [done|]. unfold replace.
  change (String c o +:+ s) with (String c (o +:+ s)).
  cbn [replace_from].
  assert (String.prefix (String c o) (String c (o +:+ s)) = true) as ->.
  { apply prefix_app. by exists s. }
  f_equal.
  replace (String.length (String c o) - 1)%nat with (String.length o)
    by (simpl; lia).
  apply replace_from_skip.
Qed.

(** X19: a name in which ["target_tone_"] does not occur is left as it is. *)
Theorem rename_column_unchanged (x : string) :
  (∀ pre suf, x ≠ pre +:+ "target_tone_" +:+ suf) →
  rename_column x = x.
Proof.
  unfold rename_column, replace.
  induction x as [|c x IH]; intros Hfree; [done|].
  cbn [replace_from].
  destruct (String.prefix "target_tone_" (String c x)) eqn:Hp.
  { apply prefix_app in Hp as [suf Hp]. by destruct (Hfree "" suf). }
  f_equal. apply IH. intros pre suf ->. by apply (Hfree (String c pre) suf).
Qed.

(** X20: the first occurrence of ["target_tone_"] is taken out wherever it
    stands, at the start of the name or inside it, and the renaming goes on
    behind it. *)
Theorem rename_column_removes_occurrence (a b : string) :
  (∀ a1 a2, a = a1 +:+ a2 → a2 ≠ "" →
            String.prefix "target_tone_" (a2 +:+ "target_tone_" +:+ b)
            = false) →
  rename_column (a +:+ "target_tone_" +:+ b) = a +:+ rename_column b.
Proof.
  unfold rename_column. induction a as [|c a IH]; intros Hfirst.
  { change (replace "target_tone_" "" ("target_tone_" +:+ b)
            = replace "target_tone_" "" b).
    by rewrite (replace_at_occurrence "target_tone_" "" b). }
  change (String c a +:+ "target_tone_" +:+ b)
    with (String c (a +:+ "target_tone_" +:+ b)).
  unfold replace at 1. cbn [replace_from].
  assert (String.prefix "target_tone_"
            (String c (a +:+ "target_tone_" +:+ b)) = false) as ->
    by (by apply (Hfirst "" (String c a))).
  change (String c a +:+ replace "target_tone_" "" b)
    with (String c (a +:+ replace "target_tone_" "" b)).
  f_equal. apply IH. intros a1 a2 -> Ha2.
  by apply (Hfirst (String c a1) a2).
Qed.

Lemma occurs_complete (old pre suf : string) :
  occurs old (pre +:+ old +:+ suf) = true.
Proof.
  induction pre as [|c pre IH].
  - change ("" +:+ old +:+ suf) with (old +:+ suf).
    assert (String.prefix old (old +:+ suf) = true) as Hp
      by (apply prefix_app; by exists suf).
    destruct (old +:+ suf); simpl in *; by rewrite Hp.
  - change (String c pre +:+ old +:+ suf)
      with (String c (pre +:+ old +:+ suf)).
    cbn [occurs]. rewrite IH. apply orb_true_r.
Qed.

Lemma rename_column_unchanged_witness :
  occurs "target_tone_" "reject_threshold" = false ∧
  rename_column "reject_threshold" = "reject_threshold".
Proof.
  split; [reflexivity|].
  apply rename_column_unchanged. intros pre suf H.
  pose proof (occurs_complete "target_tone_" pre suf) as Hocc.
  rewrite <- H in Hocc. discriminate Hocc.
Defined.

Lemma rename_column_removes_occurrence_witness :
  rename_column "my_target_tone_level" = "my_level".
Proof.
  apply (rename_column_removes_occurrence "my_" "level").
  intros a1 a2 Ha Ha2.
  repeat (destruct a1 as [|? a1]; cbv [String.append] in Ha;
          [first [ subst a2; by destruct Ha2 | subst a2; reflexivity ]|];
          first [ discriminate Ha | injection Ha as ? Ha ]).
Defined.

End ColumnFacts.

(** ** An infinite threshold that is not [numpy.inf] *)

Section InfiniteThreshold.

Import Examples.

Lemma Prim2SF_infinity : Prim2SF infinity = S754_infinity false.
Proof. reflexivity. Qed.

(** A sample that is neither missing nor plus infinity is below plus
    infinity. *)
Lemma ltb_infinity (v : float) :
  PrimFloat.is_nan v = false → (v =? infinity)%float = false →
  (v <? infinity)%float = true.
Proof.
  intros Hnan Heq.
  destruct (not_nan_compare v infinity Hnan eq_refl) as [c Hc].
  rewrite FloatAxioms.eqb_spec in Heq. rewrite FloatAxioms.ltb_spec.
  unfold SFeqb in Heq. unfold SFltb. rewrite Hc in *.
  rewrite Prim2SF_infinity in Hc.
  destruct c; [done|done|].
  destruct (Prim2SF v) as [s|s| |s m e]; simpl in Hc;
    try discriminate Hc; destruct s; discriminate Hc.
Qed.

(** X21: in absolute mode an infinite threshold that is not the object
    [numpy.inf] (one read from the metadata, say) still removes nothing from
    a table none of whose samples is plus infinity: the result is the table
    without its missing-sample rows, as for [numpy.inf] itself. *)
Theorem infinite_threshold_keeps_finite_rows (self : ABRFile)
    (result : table) (t m : pyval) :
  resolve self t m = Return (PNum infinity, PStr "absolute") →
  (∀ r v, r ∈ rows result → v ∈ samples r →
          (v =? infinity)%float = false) →
  _apply_reject self result t m = Return (dropna result) ∧
  _apply_reject self result t m = _apply_reject self result PNpInf m.
Proof.
  intros Hres Hfin.
  assert (_apply_reject self result t m = Return (dropna result)) as Hret.
  { rewrite (apply_reject_resolved _ _ _ _ _ _ Hres). simpl.
    unfold loc_mask. destruct (dropna result) as [names rs] eqn:Hd. simpl.
    f_equal. f_equal. apply filter_id. intros r Hr.
    assert (r ∈ rows (dropna result)) as Hr' by by rewrite Hd.
    apply elem_of_rows_dropna in Hr' as [Hin Hna].
    apply all_lt_spec. intros v Hv. apply ltb_infinity.
    - by apply (has_na_false r).
    - by apply (Hfin r). }
  split; [done|]. by rewrite Hret, apply_reject_np_inf.
Qed.

Lemma infinite_threshold_keeps_finite_rows_witness :
  resolve unscreened_legacy PNone (PStr "absolute")
    = Return (PNum infinity, PStr "absolute") ∧
  _apply_reject unscreened_legacy epochs PNone (PStr "absolute")
    = Return (dropna epochs).
Proof.
  split; [reflexivity|].
  refine (proj1 (infinite_threshold_keeps_finite_rows unscreened_legacy
                   epochs PNone (PStr "absolute") eq_refl _)).
  intros r v Hr Hv.
  repeat (apply elem_of_cons in Hr as [->|Hr];
          [repeat (apply elem_of_cons in Hv as [->|Hv]; [reflexivity|]);
           by apply elem_of_nil in Hv|]).
  by apply elem_of_nil in Hr.
Defined.

End InfiniteThreshold.

(** ** Entry names of comma-free arguments *)

Section FaithfulNames.

Import Cache Columns Examples.

Implicit Types (x y s : string) (l : list string).

Local Abbreviation comma_free s := (∀ pre suf, s ≠ pre +:+ "," +:+ suf).

Lemma comma_free_of_occurs s : occurs "," s = false → comma_free s.
Proof.
  intros Hocc pre suf ->. by rewrite occurs_complete in Hocc.
Qed.

Lemma comma_free_cons c s :
  comma_free (String c s) → c ≠ ","%char ∧ comma_free s.
Proof.
  intros Hfree. split.
  - intros ->. by apply (Hfree "" s).
  - intros pre suf ->. by apply (Hfree (String c pre) suf).
Qed.

Lemma comma_free_app x y : comma_free x → comma_free y → comma_free (x +:+ y).
Proof.
  intros Hx Hy. induction x as [|c x IH]; [done|].
  apply comma_free_cons in Hx as [Hc Hx]. intros pre suf Heq.
  destruct pre as [|d pre]; cbv [String.append] in Heq;
    fold String.append in Heq; injection Heq as Hd Heq.
  - done.
  - by apply (IH Hx pre suf).
Qed.

(** Two comma-free strings followed by the separator are told apart by what
    stands before the first comma. *)
Lemma separator_split x y s1 s2 :
  comma_free x → comma_free y →
  x +:+ ", " +:+ s1 = y +:+ ", " +:+ s2 → x = y ∧ s1 = s2.
Proof.
  revert y. induction x as [|c x IH]; intros [|d y] Hx Hy Heq;
    cbv [String.append] in Heq; fold String.append in Heq.
  - by injection Heq as ->.
  - injection Heq as Hd _. apply comma_free_cons in Hy as [Hy _].
    by destruct Hy.
  - injection Heq as Hc _. apply comma_free_cons in Hx as [Hx _].
    by destruct Hx.
  - injection Heq as -> Heq.
    apply comma_free_cons in Hx as [_ Hx]. apply comma_free_cons in Hy as [_ Hy].
    destruct (IH y Hx Hy Heq) as [-> ->]. done.
Qed.

Lemma concat_comma_free_inj l1 l2 :
  length l1 = length l2 →
  Forall (fun s => comma_free s) l1 → Forall (fun s => comma_free s) l2 →
  String.concat ", " l1 = String.concat ", " l2 → l1 = l2.
Proof.
  revert l2. induction l1 as [|x [|x' l1] IH]; intros [|y [|y' l2]] Hlen H1 H2;
    try done.
  - simpl. by intros ->.
  - rewrite !concat_cons. intros Heq.
    apply Forall_cons in H1 as [Hx H1]. apply Forall_cons in H2 as [Hy H2].
    destruct (separator_split _ _ _ _ Hx Hy Heq) as [-> Hrest].
    f_equal. apply IH; [simpl in Hlen |- *; congruence|done..].
Qed.

Lemma signature_names_comma_free (op : operation) :
  Forall (fun p => comma_free (name p)) (signature_of op).
Proof.
  destruct op; repeat constructor; by apply comma_free_of_occurs.
Qed.

Lemma rendered_comma_free (s : list parameter)
    (items : list (string * value)) :
  items.*1 = name <$> s →
  Forall (fun p => comma_free (name p)) s →
  (∀ k v, (k, v) ∈ items → comma_free (str v)) →
  Forall (fun s => comma_free s)
    (map (fun '(k, v) => k +:+ "=" +:+ str v) items).
Proof.
  revert s. induction items as [|[k v] items IH]; intros [|p s] Hnames Hs Hv;
    simplify_eq/=; [constructor|].
  apply Forall_cons in Hs as [Hp Hs]. constructor.
  - apply comma_free_app; [done|]. apply comma_free_app.
    + by apply comma_free_of_occurs.
    + apply (Hv (name p)). by left.
  - apply (IH s); [done..|]. intros k' v' Hin. apply (Hv k'). by right.
Qed.

(** X22: when no argument renders with a comma in it, the entry name tells the
    rendering of every argument: two calls of an operation that derive the
    same name give every parameter values with the same rendering. (With a
    comma inside a string argument, differing argument lists can run
    together into one name.) *)
Theorem comma_free_names_are_faithful (op : operation)
    (args1 args2 : list value) (kwargs1 kwargs2 : gmap string value)
    (items1 items2 : list (string * value)) :
  effective (signature_of op) args1 kwargs1 = Return items1 →
  effective (signature_of op) args2 kwargs2 = Return items2 →
  (∀ k v, (k, v) ∈ items1 ∨ (k, v) ∈ items2 →
          ∀ pre suf, str v ≠ pre +:+ "," +:+ suf) →
  file_name (co_name op) items1 = file_name (co_name op) items2 →
  items1.*1 = items2.*1 ∧
  (fun kv => str kv.2) <$> items1 = (fun kv => str kv.2) <$> items2.
Proof.
  intros Heff1 Heff2 Hfree Hname.
  destruct (effective_spec _ _ _ _ (signature_NoDup op) Heff1)
    as (_ & _ & _ & Hn1 & _).
  destruct (effective_spec _ _ _ _ (signature_NoDup op) Heff2)
    as (_ & _ & _ & Hn2 & _).
  split; [congruence|].
  unfold file_name in Hname. do 2 apply String.app_inj in Hname.
  apply append_inv_tail in Hname. unfold file_params in Hname.
  apply concat_comma_free_inj in Hname.
  - assert (items1.*1 = items2.*1) as Hkeys by congruence.
    clear -Hname Hkeys. revert items2 Hname Hkeys.
    induction items1 as [|[k1 v1] items1 IH]; intros [|[k2 v2] items2];
      simpl; try done.
    intros [= Hhd Htl] [= -> Hkeys].
    do 2 apply String.app_inj in Hhd. rewrite Hhd. f_equal. by apply IH.
  - rewrite !length_map. rewrite <- (length_fmap fst items1),
      <- (length_fmap fst items2). congruence.
  - apply (rendered_comma_free (signature_of op)); [done|..].
    + apply signature_names_comma_free.
    + intros k v Hin. apply (Hfree k). by left.
  - apply (rendered_comma_free (signature_of op)); [done|..].
    + apply signature_names_comma_free.
    + intros k v Hin. apply (Hfree k). by right.
Qed.

Lemma comma_free_names_are_faithful_witness :
  effective (signature_of get_epochs) [] {[ "detrend" := VNone ]}
    = Return items_None ∧
  effective (signature_of get_epochs) [] {[ "detrend" := VStr "None" ]}
    = Return items_str_None ∧
  file_name (co_name get_epochs) items_None
    = file_name (co_name get_epochs) items_str_None ∧
  (fun kv => str kv.2) <$> items_None
    = (fun kv => str kv.2) <$> items_str_None.
Proof.
  assert (effective (signature_of get_epochs) [] {[ "detrend" := VNone ]}
          = Return items_None) as H1 by reflexivity.
  assert (effective (signature_of get_epochs) []
            {[ "detrend" := VStr "None" ]} = Return items_str_None)
    as H2 by reflexivity.
  assert (file_name (co_name get_epochs) items_None
          = file_name (co_name get_epochs) items_str_None) as H3
    by reflexivity.
  split; [exact H1|]. split; [exact H2|]. split; [exact H3|].
  refine (proj2 (comma_free_names_are_faithful get_epochs [] []
                   {[ "detrend" := VNone ]} {[ "detrend" := VStr "None" ]}
                   items_None items_str_None H1 H2 _ H3)).
  intros k v [Hin|Hin];
    repeat (apply elem_of_cons in Hin as [[= -> ->]|Hin];
            [by apply comma_free_of_occurs|]);
    by apply elem_of_nil in Hin.
Defined.

End FaithfulNames.
